(** * Floppy Bird: the simulation core of [script.js]

    A shallow embedding of the game's state and of the functions that
    change it ([reset], [spawnPipe], [doFlap], [collidePipe], [loop],
    [endGame], [groundHeight]), followed by the properties of the
    simulation engine.

    Numbers.  JavaScript numbers are modelled as exact rationals in
    canonical form ([Qc]), so that equal numbers are equal terms; the
    rounding of double arithmetic is not modelled.  [Math.PI] is the
    rational value of its double.  The counters [score] and [best] and the
    canvas sizes are integers ([Z]).

    Environment.  [performance.now()], the frame timestamp and
    [Math.random()] are inputs of the functions that read them; the canvas
    size, the texts written to the page and the stored best score are
    fields of the state.  Drawing and sound have no effect on the state
    of the game and are left out; the drift of the clouds, which the
    drawing code keeps in a variable of its own, is modelled apart from
    the game. *)

From Stdlib Require Import ZArith QArith Qcanon Qround Lqa Lia List Bool String Sorted.
Import ListNotations.

Open Scope Z_scope.
Open Scope Qc_scope.

(** ** Numbers *)

Definition qz (z : Z) : Qc := Q2Qc (inject_Z z).
Definition qfrac (a : Z) (b : positive) : Qc := Q2Qc (a # b).

(** [a < b] and [a >= b] on numbers, as booleans. *)
Definition ltb (a b : Qc) : bool :=
  match a ?= b with Lt => true | _ => false end.
Definition gtb (a b : Qc) : bool := ltb b a.
Definition geb (a b : Qc) : bool := negb (ltb a b).

Definition Math_min (a b : Qc) : Qc := if ltb b a then b else a.
Definition Math_max (a b : Qc) : Qc := if ltb a b then b else a.
Definition Math_floor (a : Qc) : Qc := qz (Qfloor a).
(** [Math.round] rounds to the nearest integer, halves upwards. *)
Definition Math_round (a : Qc) : Qc := Math_floor (a + qfrac 1 2).
(** The double [0x400921FB54442D18]. *)
Definition Math_PI : Qc := qfrac 884279719003555 281474976710656.

(** small helpers *)
Definition clamp (v a b : Qc) : Qc := Math_max a (Math_min b v).
Definition map (v a b A B : Qc) : Qc := A + (v - a) * (B - A) / (b - a).

(** ** Game constants *)

Definition GRAVITY : Qc := qz 1100.
Definition FLAP_VY : Qc := qz (-350).
Definition PIPE_GAP : Qc := qz 140.
Definition PIPE_W : Qc := qz 60.
Definition PIPE_INTERVAL : Qc := qz 1400.
Definition PIPE_SPEED : Qc := qz 180.
Definition BIRD_X : Qc := qz 120.
Definition MAX_ROT : Qc := Math_PI / qz 6.
Definition MIN_ROT : Qc := - Math_PI / qfrac 26 10.

(** ** State *)

Module Bird.

Record t := mk
  { x : Qc; y : Qc; vy : Qc; radius : Qc; rot : Qc; alive : bool }.

Definition set_y (v : Qc) (b : t) : t :=
  mk (x b) v (vy b) (radius b) (rot b) (alive b).
Definition set_vy (v : Qc) (b : t) : t :=
  mk (x b) (y b) v (radius b) (rot b) (alive b).
Definition set_rot (v : Qc) (b : t) : t :=
  mk (x b) (y b) (vy b) (radius b) v (alive b).
Definition set_alive (v : bool) (b : t) : t :=
  mk (x b) (y b) (vy b) (radius b) (rot b) v.

End Bird.

Module Pipe.

Record t := mk { x : Qc; top : Qc; bottom : Qc; passed : bool }.

Definition set_x (v : Qc) (p : t) : t := mk v (top p) (bottom p) (passed p).
Definition set_passed (v : bool) (p : t) : t := mk (x p) (top p) (bottom p) v.

End Pipe.

(** What the script writes outside its own variables: the texts of the
    page elements and the [floppy_best] item of the local storage. *)
Record Page := mkPage
  { scoreEl : Z; bestEl : Z; endScore : Z; endBest : Z; endTitle : string;
    floppy_best : Z }.

(** The script's variables, with the canvas size they are read from. *)
Record Game := mkGame
  { clientWidth : Z; clientHeight : Z;
    width : Z; height : Z;
    bird : Bird.t;
    pipes : list Pipe.t;
    spawnTimer : Qc;
    running : bool;
    lastTime : Qc;
    score : Z;
    best : Z;
    paused : bool;
    page : Page }.

Definition set_bird (v : Bird.t) (g : Game) : Game :=
  mkGame (clientWidth g) (clientHeight g) (width g) (height g) v (pipes g)
    (spawnTimer g) (running g) (lastTime g) (score g) (best g) (paused g) (page g).
Definition set_pipes (v : list Pipe.t) (g : Game) : Game :=
  mkGame (clientWidth g) (clientHeight g) (width g) (height g) (bird g) v
    (spawnTimer g) (running g) (lastTime g) (score g) (best g) (paused g) (page g).
Definition set_spawnTimer (v : Qc) (g : Game) : Game :=
  mkGame (clientWidth g) (clientHeight g) (width g) (height g) (bird g) (pipes g)
    v (running g) (lastTime g) (score g) (best g) (paused g) (page g).
Definition set_running (v : bool) (g : Game) : Game :=
  mkGame (clientWidth g) (clientHeight g) (width g) (height g) (bird g) (pipes g)
    (spawnTimer g) v (lastTime g) (score g) (best g) (paused g) (page g).
Definition set_lastTime (v : Qc) (g : Game) : Game :=
  mkGame (clientWidth g) (clientHeight g) (width g) (height g) (bird g) (pipes g)
    (spawnTimer g) (running g) v (score g) (best g) (paused g) (page g).
Definition set_score (v : Z) (g : Game) : Game :=
  mkGame (clientWidth g) (clientHeight g) (width g) (height g) (bird g) (pipes g)
    (spawnTimer g) (running g) (lastTime g) v (best g) (paused g) (page g).
Definition set_best (v : Z) (g : Game) : Game :=
  mkGame (clientWidth g) (clientHeight g) (width g) (height g) (bird g) (pipes g)
    (spawnTimer g) (running g) (lastTime g) (score g) v (paused g) (page g).
Definition set_paused (v : bool) (g : Game) : Game :=
  mkGame (clientWidth g) (clientHeight g) (width g) (height g) (bird g) (pipes g)
    (spawnTimer g) (running g) (lastTime g) (score g) (best g) v (page g).
Definition set_page (v : Page) (g : Game) : Game :=
  mkGame (clientWidth g) (clientHeight g) (width g) (height g) (bird g) (pipes g)
    (spawnTimer g) (running g) (lastTime g) (score g) (best g) (paused g) v.

Definition set_scoreEl (v : Z) (d : Page) : Page :=
  mkPage v (bestEl d) (endScore d) (endBest d) (endTitle d) (floppy_best d).

(** ** The functions of the script *)

(** [reset()], called at [now]. *)
Definition reset (now : Qc) (g : Game) : Game :=
  let height' := clientHeight g in
  mkGame (clientWidth g) (clientHeight g)
    (clientWidth g) height'
    (Bird.mk BIRD_X (Math_floor (qz height' / qz 2)) 0 (qz 18) 0 true)
    [] 0 false now 0 (best g) (paused g)
    (set_scoreEl 0 (page g)).

(** [spawnPipe()], with [rnd] the value of [Math.random()]. *)
Definition spawnPipe (rnd : Qc) (g : Game) : Game :=
  let minTop := qz 48 in
  let maxTop := qz (height g) - PIPE_GAP - qz 120 in
  let top := Math_floor (rnd * (maxTop - minTop + 1)) + minTop in
  let pipe := Pipe.mk (qz (width g) + qz 20) top (top + PIPE_GAP) false in
  set_pipes (pipes g ++ [pipe]) g.

(** [doFlap()], called at [now]. *)
Definition doFlap (now : Qc) (g : Game) : Game :=
  let g1 := if negb (running g)
            then set_lastTime now (set_running true g)
            else g in
  if negb (Bird.alive (bird g1)) then g1
  else set_bird (Bird.set_rot MAX_ROT (Bird.set_vy FLAP_VY (bird g1))) g1.

(** [collidePipe(pipe)], reading the bird [b]. *)
Definition collidePipe (b : Bird.t) (pipe : Pipe.t) : bool :=
  let bx := Bird.x b in
  let by_ := Bird.y b in
  let r := Bird.radius b in
  let inX := gtb (bx + r) (Pipe.x pipe) && ltb (bx - r) (Pipe.x pipe + PIPE_W) in
  if negb inX then false
  else if ltb (by_ - r) (Pipe.top pipe) then true
  else if gtb (by_ + r) (Pipe.bottom pipe) then true
  else false.

(** [groundHeight()]: it reads the canvas, not the variable [height]. *)
Definition groundHeight (g : Game) : Qc :=
  Math_max (qz 34) (Math_round (qz (clientHeight g) * qfrac 12 100)).

(** [endGame()]. *)
Definition endGame (g : Game) : Game :=
  let g1 := set_running false g in
  let g2 :=
    if (best g1 <? score g1)%Z
    then set_page
           (mkPage (scoreEl (page g1)) (score g1) (endScore (page g1))
              (endBest (page g1)) (endTitle (page g1)) (score g1))
           (set_best (score g1) g1)
    else g1 in
  set_page
    (mkPage (scoreEl (page g2)) (bestEl (page g2)) (score g2) (best g2)
       (if (best g2 <? score g2)%Z then "New High Score!" else "Game Over")%string
       (floppy_best (page g2)))
    g2.

(** *** The body of [loop], statement by statement *)

(** bird physics *)
Definition physics (dt : Qc) (b : Bird.t) : Bird.t :=
  let b1 := Bird.set_vy (Bird.vy b + GRAVITY * dt) b in
  Bird.set_y (Bird.y b1 + Bird.vy b1 * dt) b1.

(** rotation smoothing *)
Definition targetRot (b : Bird.t) : Qc :=
  clamp (map (Bird.vy b) (qz (-400)) (qz 600) MAX_ROT MIN_ROT) MIN_ROT MAX_ROT.
Definition smoothRot (dt : Qc) (b : Bird.t) : Bird.t :=
  Bird.set_rot (Bird.rot b + (targetRot b - Bird.rot b) * Math_min 1 (dt * qz 8)) b.

(** spawn pipes *)
Definition spawnStep (dt rnd : Qc) (g : Game) : Game :=
  let g1 := set_spawnTimer (spawnTimer g + dt * qz 1000) g in
  if geb (spawnTimer g1) PIPE_INTERVAL
  then spawnPipe rnd (set_spawnTimer 0 g1)
  else g1.

(** move pipes: the loop runs from the last index down to 0, so the tail
    of the list is handled before its head; [splice(i,1)] drops the pipe
    at hand and leaves the lower indices in place.  The result is the new
    array and the new score. *)
Fixpoint movePipes (dt bx : Qc) (ps : list Pipe.t) (sc : Z) : list Pipe.t * Z :=
  match ps with
  | [] => ([], sc)
  | p :: rest =>
      let '(rest', sc1) := movePipes dt bx rest sc in
      let p1 := Pipe.set_x (Pipe.x p - PIPE_SPEED * dt) p in
      let '(p2, sc2) :=
        if negb (Pipe.passed p1) && ltb (Pipe.x p1 + PIPE_W) bx
        then (Pipe.set_passed true p1, (sc1 + 1)%Z)
        else (p1, sc1) in
      if ltb (Pipe.x p2 + PIPE_W) (qz (-40)) then (rest', sc2)
      else (p2 :: rest', sc2)
  end.

Definition moveStep (dt : Qc) (g : Game) : Game :=
  let '(ps, sc) := movePipes dt (Bird.x (bird g)) (pipes g) (score g) in
  let g1 := set_score sc (set_pipes ps g) in
  if (sc =? score g)%Z then g1
  else set_page (set_scoreEl sc (page g1)) g1.

(** collisions: with ground/ceiling *)
Definition groundCheck (g : Game) : Game :=
  if gtb (Bird.y (bird g) + Bird.radius (bird g)) (qz (height g) - groundHeight g)
  then set_bird (Bird.set_alive false (bird g)) g
  else g.

Definition ceilingClamp (g : Game) : Game :=
  if ltb (Bird.y (bird g) - Bird.radius (bird g)) 0
  then set_bird (Bird.set_vy 0 (Bird.set_y (Bird.radius (bird g)) (bird g))) g
  else g.

(** collisions: pipes *)
Definition pipeCheck (g : Game) : Game :=
  if existsb (collidePipe (bird g)) (pipes g)
  then set_bird (Bird.set_alive false (bird g)) g
  else g.

(** on death *)
Definition deathCheck (g : Game) : Game :=
  if negb (Bird.alive (bird g)) then endGame g else g.

(** The block guarded by [running && bird.alive]. *)
Definition update (dt rnd : Qc) (g : Game) : Game :=
  let g1 := set_bird (smoothRot dt (physics dt (bird g))) g in
  let g2 := spawnStep dt rnd g1 in
  let g3 := moveStep dt g2 in
  let g4 := groundCheck g3 in
  let g5 := ceilingClamp g4 in
  let g6 := pipeCheck g5 in
  deathCheck g6.

(** [loop(now)]; [rnd] is what [Math.random()] returns if a pipe is
    spawned in this frame. *)
Definition frameDt (now : Qc) (g : Game) : Qc :=
  Math_min (qfrac 35 1000) ((now - lastTime g) / qz 1000).

Definition loop (now rnd : Qc) (g : Game) : Game :=
  if paused g then set_lastTime now g
  else
    let dt := frameDt now g in
    let g1 := set_lastTime now g in
    if running g1 && Bird.alive (bird g1) then update dt rnd g1 else g1.

(** ** What happens to the page *)

(** Each event carries what the handler reads from the outside: the clock,
    the random number, the new size of the canvas. *)
Inductive Event :=
| Retry (now : Qc)            (* retryBtn click, FLOPPY.reset *)
| Flap (now : Qc)             (* mousedown, touchstart, Space, ArrowUp *)
| Ready (now : Qc)            (* readyBtn click *)
| Start (now : Qc)            (* FLOPPY.start *)
| KeyP (now : Qc)             (* the p key *)
| Frame (now rnd : Qc)        (* an animation frame: loop(now) *)
| Resize (cw ch : Z).         (* the canvas element changes size *)

Definition handle (e : Event) (g : Game) : Game :=
  match e with
  | Retry now => reset now g
  | Flap now => doFlap now g
  | Ready now => set_lastTime now (set_running false g)
  | Start now => set_lastTime now (set_running true g)
  | KeyP now =>
      let g1 := set_paused (negb (paused g)) g in
      if negb (paused g1) && running g1 then set_lastTime now g1 else g1
  | Frame now rnd => loop now rnd g
  | Resize cw ch =>
      mkGame cw ch (width g) (height g) (bird g) (pipes g) (spawnTimer g)
        (running g) (lastTime g) (score g) (best g) (paused g) (page g)
  end.

Definition run (tr : list Event) (g : Game) : Game :=
  fold_left (fun s e => handle e s) tr g.

(** States reached from [g0] through events that satisfy [ok]. *)
Inductive reachable (ok : Game -> Event -> Prop) (g0 : Game) : Game -> Prop :=
| reach_start : reachable ok g0 g0
| reach_step s e : reachable ok g0 s -> ok s e -> reachable ok g0 (handle e s).

(** The clock does not run backwards between the last reading and a frame,
    and [Math.random()] is in [0, 1). *)
Definition clock_ok (s : Game) (e : Event) : Prop :=
  match e with
  | Frame now rnd => lastTime s <= now /\ 0 <= rnd /\ rnd < 1
  | _ => True
  end.

(** The canvas keeps its size. *)
Definition steady (s : Game) (e : Event) : Prop :=
  match e with
  | Resize _ _ => False
  | _ => True
  end.

(** The script ends with [reset()]: the game starts from the state that
    [reset] makes of the declarations.  [best0] is the number the script
    reads from the storage; the script does not write the storage at the
    start, so what the field [floppy_best] holds here stands for an item
    that may be absent, and the properties of the page are stated from
    any start. *)
Definition declared (cw ch best0 : Z) : Game :=
  mkGame cw ch cw ch (Bird.mk 0 0 0 0 0 false) [] 0 false 0 0 best0 false
    (mkPage 0 best0 0 0 "" best0).

Definition initial (cw ch best0 : Z) (now : Qc) : Game :=
  reset now (declared cw ch best0).


(** ** Notions of the specification *)

(** The result shown at the end of a session says "new best" through the
    title of the game-over panel. *)
Definition isNewBest (g : Game) : bool :=
  (endTitle (page g) =? "New High Score!")%string.

(** The session is over: [endGame] has switched [running] off and the bird
    is dead. *)
Definition Ended (g : Game) : Prop :=
  running g = false /\ Bird.alive (bird g) = false.

(** Two intervals share more than a boundary point. *)
Definition overlaps (lo1 hi1 lo2 hi2 : Qc) : Prop := lo2 < hi1 /\ lo1 < hi2.

(** The collision rule in the words of the specification. *)
Definition collides (b : Bird.t) (p : Pipe.t) : Prop :=
  overlaps (Bird.x b - Bird.radius b) (Bird.x b + Bird.radius b)
           (Pipe.x p) (Pipe.x p + PIPE_W)
  /\ (Bird.y b - Bird.radius b < Pipe.top p
      \/ Pipe.bottom p < Bird.y b + Bird.radius b).

Definition fixture_pipe : Pipe.t := Pipe.mk (qz 120) (qz 100) (qz 240) false.
Definition fixture_bird (y : Z) : Bird.t :=
  Bird.mk (qz 120) (qz y) 0 (qz 18) 0 true.

(** Where a spawned gap has to lie: at least 48 below the ceiling and not
    inside the ground band. *)
Definition gap_in_bounds (g : Game) (p : Pipe.t) : Prop :=
  qz 48 <= Pipe.top p /\
  Pipe.top p + PIPE_GAP <= qz (height g) - groundHeight g.

(** Scoring, in the words of the specification: a pipe moves left, counts
    when it is not yet passed and its trailing edge is strictly left of
    the bird, is then marked, and leaves the array once far off screen. *)
Definition advance (dt : Qc) (p : Pipe.t) : Pipe.t :=
  Pipe.set_x (Pipe.x p - PIPE_SPEED * dt) p.
Definition crossed (bx : Qc) (p : Pipe.t) : bool :=
  negb (Pipe.passed p) && ltb (Pipe.x p + PIPE_W) bx.
Definition markPassed (bx : Qc) (p : Pipe.t) : Pipe.t :=
  if crossed bx p then Pipe.set_passed true p else p.
Definition onscreen (p : Pipe.t) : bool :=
  negb (ltb (Pipe.x p + PIPE_W) (qz (-40))).

(** The ground test of [loop], on a bird [b]. *)
Definition hitsGround (g : Game) (b : Bird.t) : Prop :=
  qz (height g) - groundHeight g < Bird.y b + Bird.radius b.

(** The ceiling test of [loop], on a bird [b]. *)
Definition aboveCeiling (b : Bird.t) : Prop :=
  Bird.y b - Bird.radius b < 0.

(** The bird of a frame after bird physics. *)
Definition integrated (now : Qc) (g : Game) : Bird.t :=
  physics (frameDt now g) (bird g).

(** A frame that runs the update block and ends the session. *)
Definition endsSession (e : Event) (s : Game) : Prop :=
  exists now rnd,
    e = Frame now rnd /\ paused s = false /\ running s = true /\
    Bird.alive (bird s) = true /\
    Bird.alive (bird (handle e s)) = false /\ running (handle e s) = false.

(** *** Sessions played out *)

(** [n] frames 35 ms apart, from [t0] ms on, each preceded by a flap when
    [flaps] says so for its index. *)
Definition frames (flaps : nat -> bool) (t0 : Z) (n : nat) : list Event :=
  flat_map
    (fun k =>
       let t := qz (t0 + 35 * Z.of_nat k) in
       if flaps k then [Flap t; Frame t 0] else [Frame t 0])
    (seq 1 n).

(** One flap, then the bird falls to the ground: over after 27 frames. *)
Definition crashed : Game :=
  run (Flap 0 :: frames (fun _ => false) 0 27) (initial 320 480 0 0).

(** A session that is about to end with score 3 over a best record of 1. *)
Definition three_over_one : Game :=
  set_score 3 (initial 320 480 1 0).

(** A session kept level by a flap every 18 frames, up to the frame in
    which the first pipe (gap 48..188) reaches the bird. *)
Definition hovering : Game :=
  run (frames (fun k => (k mod 18 =? 1)%nat) 0 72) (initial 320 480 0 0).

(** A session flown into the ceiling by a flap before every frame, up to
    the frame in which the first pipe reaches the bird, and the flap
    before that frame. *)
Definition at_ceiling : Game :=
  doFlap (qz 2555) (run (frames (fun _ => true) 0 72) (initial 320 480 0 0)).

(** A running session with two pipes that cross the bird in one frame. *)
Definition two_crossing : Game :=
  set_pipes [Pipe.mk (qz 61) (qz 150) (qz 290) false;
             Pipe.mk (qz 62) (qz 160) (qz 300) false]
    (doFlap 0 (initial 320 480 0 0)).

(** The bird of [update] after the ground test and the ceiling clamp. *)
Definition grounded (g : Game) (b : Bird.t) : Bird.t :=
  if gtb (Bird.y b + Bird.radius b) (qz (height g) - groundHeight g)
  then Bird.set_alive false b else b.
Definition clamped (b : Bird.t) : Bird.t :=
  if ltb (Bird.y b - Bird.radius b) 0
  then Bird.set_vy 0 (Bird.set_y (Bird.radius b) b) else b.

(** The falling bird of [crashed], one frame before it reaches the ground. *)
Definition falling : Game :=
  run (Flap 0 :: frames (fun _ => false) 0 26) (initial 320 480 0 0).

(** The climbing bird of [at_ceiling] in the frame in which it first
    reaches the ceiling; no pipe is on the screen yet. *)
Definition climbing : Game :=
  doFlap (qz 770) (run (frames (fun _ => true) 0 21) (initial 320 480 0 0)).

(** The session of [falling] with three points scored so far. *)
Definition falling_with_three : Game := set_score 3 falling.

(** A running session on a canvas only 100 high. *)
Definition low_canvas : Game := handle (Flap 0) (initial 320 100 0 0).

(** What every frame leaves behind on a canvas of constant height [h]:
    the spawn timer is below the interval, a live bird is off the ground,
    below the ceiling and clear of all pipes, and every pipe has been
    scored if it crossed and removed if it left the screen. *)
Definition settled (h : Z) (g : Game) : Prop :=
  clientHeight g = h /\ height g = h /\
  Bird.radius (bird g) = qz 18 /\ Bird.x (bird g) = BIRD_X /\
  spawnTimer g < PIPE_INTERVAL /\
  (Bird.alive (bird g) = true ->
     ~ hitsGround g (bird g) /\ ~ aboveCeiling (bird g) /\
     existsb (collidePipe (bird g)) (pipes g) = false) /\
  Forall (fun p => crossed BIRD_X p = false /\ onscreen p = true) (pipes g).

(** The orientation stays between full nose-dive and full nose-up. *)
Definition rot_in_bounds (g : Game) : Prop :=
  MIN_ROT <= Bird.rot (bird g) /\ Bird.rot (bird g) <= MAX_ROT.

(** Checking a trace of events against a condition on each step. *)
Definition clock_okb (s : Game) (e : Event) : bool :=
  match e with
  | Frame now rnd => negb (ltb now (lastTime s)) && negb (ltb rnd 0) && ltb rnd 1
  | _ => true
  end.

Definition steadyb (s : Game) (e : Event) : bool :=
  match e with
  | Resize _ _ => false
  | _ => true
  end.

Fixpoint trace_okb (okb : Game -> Event -> bool) (tr : list Event) (s : Game)
  : bool :=
  match tr with
  | [] => true
  | e :: tr' => okb s e && trace_okb okb tr' (handle e s)
  end.

(** ** Further notions *)

(** Any event at any time. *)
Definition any_event (s : Game) (e : Event) : Prop := True.

Definition isRetry (e : Event) : bool :=
  match e with Retry _ => true | _ => false end.

(** The frames with the given timestamps and random numbers. *)
Definition frameEvents (fs : list (Qc * Qc)) : list Event :=
  List.map (fun f => Frame (fst f) (snd f)) fs.


(** A flap at 1000 ms followed by a frame whose timestamp is 999 ms. *)
Definition clock_back : Game :=
  handle (Frame (qz 999) 0) (handle (Flap (qz 1000)) (initial 320 480 0 0)).

(** The least distance between the leading edges of two pipes in a row:
    the 252 px that pipes cover in one spawn interval, less the 6.3 px of
    the longest frame. *)
Definition PIPE_SPACING : Qc := qfrac 2457 10.

Definition ahead (p q : Pipe.t) : Prop := Pipe.x p + PIPE_SPACING <= Pipe.x q.

(** No pipe is right of where a pipe spawned [spawnTimer] ms ago would be. *)
Definition behindSpawn (g : Game) (p : Pipe.t) : Prop :=
  Pipe.x p <= qz (width g) + qz 20 - qfrac 18 100 * spawnTimer g.

(** What holds of the bird and the pipes after any events. *)
Definition orderly (g : Game) : Prop :=
  Bird.x (bird g) = BIRD_X /\ Bird.radius (bird g) = qz 18 /\
  spawnTimer g < PIPE_INTERVAL /\
  Forall (fun p => Pipe.bottom p = Pipe.top p + PIPE_GAP /\
                   onscreen p = true /\ crossed BIRD_X p = false) (pipes g) /\
  Forall (behindSpawn g) (pipes g) /\
  StronglySorted ahead (pipes g).

(** A point of the plane lies in the bird's disc, and strictly inside the
    upper or the lower segment of a pipe (the lower one taken down to any
    depth). *)
Definition inDisc (b : Bird.t) (px py : Qc) : Prop :=
  (px - Bird.x b) * (px - Bird.x b) + (py - Bird.y b) * (py - Bird.y b)
  <= Bird.radius b * Bird.radius b.

Definition inPipe (p : Pipe.t) (px py : Qc) : Prop :=
  Pipe.x p < px /\ px < Pipe.x p + PIPE_W /\
  (py < Pipe.top p \/ Pipe.bottom p < py).

(** *** Clouds *)

Module Cloud.

Record t := mk { x : Qc; y : Qc; w : Qc; h : Qc; vx : Qc }.

End Cloud.

(** One cloud of [initClouds()], from the five values of [Math.random()]
    it draws. *)
Definition initCloud (cw ch : Z) (r1 r2 r3 r4 r5 : Qc) : Cloud.t :=
  Cloud.mk (r1 * qz cw) (r2 * qz ch * qfrac 35 100)
    (qz 60 + r3 * qz 120) (qz 18 + r4 * qz 28) (qz 8 + r5 * qz 18).

(** What [drawClouds()] does to the position of one cloud, on a canvas
    [cw] wide. *)
Definition moveCloud (cw : Z) (c : Cloud.t) : Cloud.t :=
  let x1 := Cloud.x c - Cloud.vx c * qfrac 16 1000 in
  let x2 := if ltb (x1 + Cloud.w c) (qz (-20)) then qz cw + qz 40 else x1 in
  Cloud.mk x2 (Cloud.y c) (Cloud.w c) (Cloud.h c) (Cloud.vx c).

(** The values of [Math.random()] lie in [0, 1). *)
Definition unit_random (r : Qc) : Prop := 0 <= r /\ r < 1.

Fixpoint moveCloudN (n : nat) (cw : Z) (c : Cloud.t) : Cloud.t :=
  match n with
  | O => c
  | S k => moveCloud cw (moveCloudN k cw c)
  end.

(** Frames draw their random numbers from [0, 1) and the canvas keeps its
    size. *)
Definition fair (s : Game) (e : Event) : Prop :=
  match e with
  | Frame _ rnd => unit_random rnd
  | Resize _ _ => False
  | _ => True
  end.

Definition fairb (s : Game) (e : Event) : bool :=
  match e with
  | Frame _ rnd => negb (ltb rnd 0) && ltb rnd 1
  | Resize _ _ => false
  | _ => true
  end.

(** The heights of the two rectangles that [drawPipe] fills for a pipe:
    from the ceiling to the gap, and from the gap to the ground band. *)
Definition topRectHeight (p : Pipe.t) : Qc := Pipe.top p.
Definition bottomRectHeight (g : Game) (p : Pipe.t) : Qc :=
  qz (height g) - Pipe.bottom p - groundHeight g.
(** ** Numbers: from [Qc] to [Q] *)

Lemma this_Q2Qc q : (this (Q2Qc q) == q)%Q.
Proof. apply Qred_correct. Qed.

Lemma this_add a b : (this (a + b) == this a + this b)%Q.
Proof. apply Qred_correct. Qed.

Lemma this_mul a b : (this (a * b) == this a * this b)%Q.
Proof. apply Qred_correct. Qed.

Lemma this_opp a : (this (- a) == - this a)%Q.
Proof. apply Qred_correct. Qed.

Lemma this_sub a b : (this (a - b) == this a - this b)%Q.
Proof. unfold Qcminus. rewrite this_add, this_opp. reflexivity. Qed.

Lemma this_inv a : (this (/ a) == / this a)%Q.
Proof. apply Qred_correct. Qed.

Lemma this_div a b : (this (a / b) == this a / this b)%Q.
Proof. unfold Qcdiv. rewrite this_mul, this_inv. reflexivity. Qed.

Lemma Qc_eq_Qeq (a b : Qc) : a = b -> (this a == this b)%Q.
Proof. intros ->. reflexivity. Qed.

(** Turns a goal on [Qc] and its hypotheses into statements on [Q], where
    [lra] and [nra] apply. *)
Ltac qc_hyp H :=
  repeat first
    [ rewrite this_sub in H | rewrite this_div in H | rewrite this_add in H
    | rewrite this_mul in H | rewrite this_opp in H | rewrite this_inv in H
    | rewrite this_Q2Qc in H ].

Ltac qc_goal :=
  repeat first
    [ rewrite this_sub | rewrite this_div | rewrite this_add
    | rewrite this_mul | rewrite this_opp | rewrite this_inv
    | rewrite this_Q2Qc ].

Ltac qc2q :=
  unfold qz, qfrac in *;
  repeat match goal with
    | H : @eq Qc _ _ |- _ => apply Qc_eq_Qeq in H
    end;
  try apply Qc_is_canon;
  unfold Qcle, Qclt in *;
  repeat match goal with
    | H : (_ <= _)%Q |- _ => progress qc_hyp H
    | H : (_ < _)%Q |- _ => progress qc_hyp H
    | H : (_ == _)%Q |- _ => progress qc_hyp H
    end;
  qc_goal; unfold inject_Z, Qdiv in *; cbn [Qinv Qnum Qden] in *.

Lemma ltb_true a b : ltb a b = true <-> a < b.
Proof.
  unfold ltb. rewrite Qclt_alt.
  destruct (a ?= b); split; congruence.
Qed.

Lemma ltb_false a b : ltb a b = false <-> b <= a.
Proof.
  split; intros H.
  - apply Qcnot_lt_le. intros L. apply ltb_true in L. congruence.
  - destruct (ltb a b) eqn:E; trivial.
    apply ltb_true in E. exfalso. exact (Qcle_not_lt _ _ H E).
Qed.

Lemma ltb_irrefl a : ltb a a = false.
Proof. apply ltb_false, Qcle_refl. Qed.

Lemma qz_le a b : (a <= b)%Z <-> qz a <= qz b.
Proof.
  unfold Qcle, qz. rewrite !this_Q2Qc, <- Zle_Qle. reflexivity.
Qed.

Lemma qz_lt a b : (a < b)%Z <-> qz a < qz b.
Proof.
  unfold Qclt, qz. rewrite !this_Q2Qc, <- Zlt_Qlt. reflexivity.
Qed.

Lemma qz_le_mono a b : (a <= b)%Z -> qz a <= qz b.
Proof. apply qz_le. Qed.

Lemma qz_le_inv a b : qz a <= qz b -> (a <= b)%Z.
Proof. apply qz_le. Qed.

Lemma qz_lt_mono a b : (a < b)%Z -> qz a < qz b.
Proof. apply qz_lt. Qed.

Lemma qz_lt_inv a b : qz a < qz b -> (a < b)%Z.
Proof. apply qz_lt. Qed.

Lemma qz_add a b : qz (a + b) = qz a + qz b.
Proof.
  apply Qc_is_canon. unfold qz.
  rewrite this_add, !this_Q2Qc, inject_Z_plus. reflexivity.
Qed.

Lemma qz_sub a b : qz (a - b) = qz a - qz b.
Proof.
  apply Qc_is_canon. unfold qz, Z.sub.
  rewrite this_sub, !this_Q2Qc, inject_Z_plus, inject_Z_opp. reflexivity.
Qed.

(** [Math.floor]: the integer [n] with [n <= a < n + 1]. *)
Lemma Math_floor_bounds a :
  Math_floor a <= a /\ a < Math_floor a + 1.
Proof.
  unfold Math_floor. split.
  - unfold Qcle, qz. rewrite this_Q2Qc. apply Qfloor_le.
  - unfold Qclt, qz. rewrite this_add, !this_Q2Qc.
    change 1%Q with (inject_Z 1). rewrite <- inject_Z_plus. apply Qlt_floor.
Qed.

Lemma Math_floor_between (n : Z) a :
  qz n <= a -> a < qz n + 1 -> Math_floor a = qz n.
Proof.
  intros L U. unfold Math_floor. f_equal.
  assert (Hl : (n <= Qfloor a)%Z).
  { rewrite <- (Qfloor_Z n). apply Qfloor_resp_le.
    unfold Qcle, qz in L. rewrite this_Q2Qc in L. exact L. }
  assert (Hu : (Qfloor a < n + 1)%Z).
  { rewrite Zlt_Qlt. apply Qle_lt_trans with (this a); [apply Qfloor_le|].
    unfold Qclt, qz in U. rewrite this_add, !this_Q2Qc in U.
    rewrite inject_Z_plus. exact U. }
  lia.
Qed.

(** ** The end of a session *)

Lemma endGame_best g :
  best (endGame g) = Z.max (best g) (score g).
Proof.
  unfold endGame. cbn.
  destruct (Z.ltb_spec (best g) (score g)); cbn; lia.
Qed.

Lemma endGame_title g :
  endTitle (page (endGame g)) = "Game Over"%string.
Proof.
  unfold endGame. cbn.
  destruct (Z.ltb_spec (best g) (score g)) as [L|L]; cbn.
  - rewrite Z.ltb_irrefl. reflexivity.
  - destruct (Z.ltb_spec (best g) (score g)); [lia | reflexivity].
Qed.

(** C1 (the code departs from the claim): when the final score exceeds the
    best record, [endGame] stores the score as the new record and only then
    compares the two for the title, so the result it shows never says
    "new best". *)
Theorem endGame_new_best_not_reported (g : Game) :
  (best g < score g)%Z ->
  best (endGame g) = score g /\ isNewBest (endGame g) = false.
Proof.
  intros L. split.
  - rewrite endGame_best. lia.
  - unfold isNewBest. rewrite endGame_title. reflexivity.
Qed.

Lemma endGame_new_best_not_reported_witness :
  (best three_over_one < score three_over_one)%Z /\
  best (endGame three_over_one) = score three_over_one /\
  isNewBest (endGame three_over_one) = false.
Proof.
  split; [reflexivity|].
  apply (endGame_new_best_not_reported three_over_one). reflexivity.
Defined.

(** ** Flapping *)

Lemma doFlap_dead now g :
  Bird.alive (bird g) = false ->
  doFlap now g =
  if running g then g else set_lastTime now (set_running true g).
Proof.
  intros D. unfold doFlap. destruct (running g); cbn; rewrite D; reflexivity.
Qed.

(** C2, as stated, fails: in a session that is over, [doFlap] switches
    [running] back on. *)
Lemma doFlap_ended_sets_running :
  Ended crashed /\ running (doFlap (qz 1000) crashed) <> running crashed.
Proof.
  split; [split; vm_compute; reflexivity|].
  vm_compute. discriminate.
Qed.

(** C2, amended: a flap in a session that is over changes neither the bird
    (position, velocity, orientation, alive flag) nor the pipes, the spawn
    timer, the score or the best record; and the next frame, whatever its
    time, updates none of them either. *)
Theorem doFlap_ended_keeps_session now (g : Game) :
  Ended g ->
  let g' := doFlap now g in
  bird g' = bird g /\ pipes g' = pipes g /\ spawnTimer g' = spawnTimer g /\
  score g' = score g /\ best g' = best g /\ page g' = page g /\
  forall t rnd,
    let g'' := loop t rnd g' in
    bird g'' = bird g /\ pipes g'' = pipes g /\ spawnTimer g'' = spawnTimer g /\
    score g'' = score g /\ best g'' = best g /\ page g'' = page g.
Proof.
  intros [R D]. cbn zeta. rewrite (doFlap_dead now g D), R.
  repeat split; trivial.
  all: unfold loop; cbn; rewrite D; destruct (paused g); reflexivity.
Qed.

Lemma crashed_Ended : Ended crashed.
Proof. split; vm_compute; reflexivity. Defined.

Lemma doFlap_ended_keeps_session_witness :
  Ended crashed /\ bird (doFlap (qz 1000) crashed) = bird crashed.
Proof.
  split; [exact crashed_Ended|].
  exact (proj1 (doFlap_ended_keeps_session (qz 1000) crashed crashed_Ended)).
Defined.

(** ** Collision with a pipe *)

(** C8: [collidePipe] is true exactly when the bird's horizontal extent
    strictly overlaps the pipe's and the bird reaches above the gap's top
    or below its bottom; for the pipe at x = 120 with gap 100..240 and a
    bird at x = 120 of radius 18 it is false at y = 170 and true at
    y = 90. *)
Theorem collidePipe_spec :
  (forall b p, collidePipe b p = true <-> collides b p)
  /\ collidePipe (fixture_bird 170) fixture_pipe = false
  /\ collidePipe (fixture_bird 90) fixture_pipe = true.
Proof.
  split; [|split; reflexivity].
  intros b p. unfold collidePipe, collides, overlaps, gtb.
  rewrite <- !ltb_true.
  destruct (ltb (Pipe.x p) (Bird.x b + Bird.radius b));
  destruct (ltb (Bird.x b - Bird.radius b) (Pipe.x p + PIPE_W));
  destruct (ltb (Bird.y b - Bird.radius b) (Pipe.top p));
  destruct (ltb (Pipe.bottom p) (Bird.y b + Bird.radius b));
  cbn; intuition congruence.
Qed.

(** ** Spawning a pipe *)

Lemma Math_max_le a b c : a <= c -> b <= c -> Math_max a b <= c.
Proof. unfold Math_max. destruct (ltb a b); trivial. Qed.

Lemma Math_max_l a b : a <= Math_max a b.
Proof.
  unfold Math_max. destruct (ltb a b) eqn:E.
  - apply Qclt_le_weak, ltb_true, E.
  - apply Qcle_refl.
Qed.

Lemma Math_max_r a b : b <= Math_max a b.
Proof.
  unfold Math_max. destruct (ltb a b) eqn:E.
  - apply Qcle_refl.
  - apply ltb_false, E.
Qed.

Lemma Math_round_le (n : Z) a :
  a + qfrac 1 2 < qz n + 1 -> Math_round a <= qz n.
Proof.
  intros U. unfold Math_round, Math_floor. apply qz_le_mono.
  assert (H : (Qfloor (a + qfrac 1 2)%Qc < n + 1)%Z).
  { apply qz_lt_inv. rewrite !qz_add.
    apply Qcle_lt_trans with (a + qfrac 1 2);
      [exact (proj1 (Math_floor_bounds (a + qfrac 1 2)))|exact U]. }
  lia.
Qed.

(** The ground band is at most 120 high on a canvas of up to 1004. *)
Lemma groundHeight_le_120 g :
  (clientHeight g <= 1004)%Z -> groundHeight g <= qz 120.
Proof.
  intros H. unfold groundHeight. apply Math_max_le.
  - apply qz_le_mono. lia.
  - apply Math_round_le. apply qz_le_mono in H. qc2q. lra.
Qed.

(** [floor (rnd * n)] lies in [0, n - 1] for [rnd] in [0, 1) and [n >= 1],
    and is 0 for [n = 0]. *)
Lemma floor_random (rnd n : Qc) (k : Z) :
  0 <= rnd -> rnd < 1 -> n = qz k -> (0 <= k)%Z ->
  exists f : Z, Math_floor (rnd * n) = qz f /\ (0 <= f)%Z /\ (f <= Z.max 0 (k - 1))%Z.
Proof.
  intros R0 R1 -> K.
  exists (Qfloor (rnd * qz k)%Qc). split; [reflexivity|].
  destruct (Math_floor_bounds (rnd * qz k)) as [L U].
  unfold Math_floor in L, U.
  set (f := Qfloor (rnd * qz k)%Qc) in *.
  assert (K' : qz 0 <= qz k) by (apply qz_le_mono; exact K).
  split.
  - assert (H : (0 < f + 1)%Z); [|lia].
    apply qz_lt_inv. rewrite qz_add.
    apply Qcle_lt_trans with (rnd * qz k); [|exact U].
    qc2q. nra.
  - destruct (Z.eq_dec k 0) as [->|N].
    + assert (H : (f <= 0)%Z); [|lia].
      apply qz_le_inv. apply Qcle_trans with (rnd * qz 0); [exact L|].
      qc2q. lra.
    + assert (H : (f < k)%Z); [|lia].
      apply qz_lt_inv. apply Qcle_lt_trans with (rnd * qz k); [exact L|].
      assert (K1 : qz 1 <= qz k) by (apply qz_le_mono; lia).
      qc2q. nra.
Qed.

(** C3, as stated, fails at both ends: on a canvas 200 high the gap starts
    above the margin of 48 (at -6), and on a canvas 2000 high, whose
    ground band is 240, the gap can reach down to 1879 > 1760. *)
Lemma spawnPipe_gap_out_of_bounds :
  (exists p,
      pipes (spawnPipe (qfrac 1 2) (initial 320 200 0 0)) = [p] /\
      ~ gap_in_bounds (initial 320 200 0 0) p)
  /\ (exists p,
      pipes (spawnPipe (qfrac 1023 1024) (initial 320 2000 0 0)) = [p] /\
      ~ gap_in_bounds (initial 320 2000 0 0) p).
Proof.
  split; eexists; (split; [reflexivity|]); intros [A B].
  - apply ltb_false in A. vm_compute in A. discriminate.
  - apply ltb_false in B. vm_compute in B. discriminate.
Qed.

(** C3, amended: on a canvas between 307 and 1004 high, every spawned
    pipe has its gap top at least 48 below the ceiling, a gap of exactly
    [PIPE_GAP], and a gap bottom that stays out of the ground band. *)
Theorem spawnPipe_gap_in_bounds (rnd : Qc) (g : Game) :
  height g = clientHeight g ->
  (307 <= height g <= 1004)%Z ->
  0 <= rnd -> rnd < 1 ->
  exists p,
    pipes (spawnPipe rnd g) = pipes g ++ [p] /\
    Pipe.bottom p = Pipe.top p + PIPE_GAP /\
    gap_in_bounds g p.
Proof.
  intros E [Hl Hu] R0 R1.
  eexists. split; [reflexivity|]. split; [reflexivity|].
  cbn [Pipe.top].
  destruct (floor_random rnd (qz (height g) - PIPE_GAP - qz 120 - qz 48 + 1)
              (height g - 307) R0 R1) as (f & -> & F0 & F1).
  { unfold PIPE_GAP. change 1 with (qz 1). rewrite <- !qz_sub, <- qz_add.
    f_equal. lia. }
  { lia. }
  assert (G : groundHeight g <= qz 120)
    by (apply groundHeight_le_120; lia).
  assert (G' : groundHeight g <= qz (height g) - qz 188).
  { unfold groundHeight. rewrite <- E. apply Math_max_le.
    - rewrite <- qz_sub. apply qz_le_mono. lia.
    - rewrite <- qz_sub. apply Math_round_le.
      apply qz_le_mono in Hl. rewrite qz_sub. qc2q. lra. }
  apply qz_le_mono in F0, F1.
  assert (F2 : qz f <= qz (height g) - qz 308 \/ qz f <= 0).
  { destruct (Z.max_spec 0 (height g - 307 - 1)) as [[_ M]|[_ M]];
      rewrite M in F1.
    - left. rewrite <- qz_sub. replace (height g - 308)%Z
        with (height g - 307 - 1)%Z by lia. exact F1.
    - right. exact F1. }
  unfold gap_in_bounds, PIPE_GAP. cbn [Pipe.top]. split.
  - clear F2. qc2q. lra.
  - destruct F2 as [F2|F2]; qc2q; lra.
Qed.

Lemma spawnPipe_gap_in_bounds_witness :
  exists p,
    pipes (spawnPipe (qfrac 1 2) (initial 320 480 0 0))
    = pipes (initial 320 480 0 0) ++ [p] /\
    Pipe.bottom p = Pipe.top p + PIPE_GAP /\
    gap_in_bounds (initial 320 480 0 0) p.
Proof.
  apply (spawnPipe_gap_in_bounds (qfrac 1 2) (initial 320 480 0 0)).
  - reflexivity.
  - cbn. lia.
  - apply ltb_false. reflexivity.
  - apply ltb_true. reflexivity.
Defined.

(** ** Moving and scoring the pipes *)

(** The backwards loop with [splice] computes a map followed by a filter,
    and adds to the score the number of pipes that crossed. *)
Lemma movePipes_spec dt bx ps sc :
  movePipes dt bx ps sc =
  (filter onscreen (List.map (markPassed bx) (List.map (advance dt) ps)),
   (sc + Z.of_nat (List.length (filter (crossed bx) (List.map (advance dt) ps))))%Z).
Proof.
  induction ps as [|p rest IH]; cbn [movePipes List.map filter List.length].
  - f_equal. lia.
  - rewrite IH. fold (advance dt p).
    change (negb (Pipe.passed (advance dt p))
            && ltb (Pipe.x (advance dt p) + PIPE_W) bx)
      with (crossed bx (advance dt p)).
    assert (M : markPassed bx (advance dt p) =
                if crossed bx (advance dt p)
                then Pipe.set_passed true (advance dt p)
                else advance dt p) by reflexivity.
    rewrite M. clear M.
    destruct (crossed bx (advance dt p)).
    + change (onscreen (Pipe.set_passed true (advance dt p)))
        with (negb (ltb (Pipe.x (Pipe.set_passed true (advance dt p)) + PIPE_W)
                      (qz (-40)))).
      destruct (ltb (Pipe.x (Pipe.set_passed true (advance dt p)) + PIPE_W)
                  (qz (-40)));
        cbn [negb List.length]; f_equal; lia.
    + change (onscreen (advance dt p))
        with (negb (ltb (Pipe.x (advance dt p) + PIPE_W) (qz (-40)))).
      destruct (ltb (Pipe.x (advance dt p) + PIPE_W) (qz (-40)));
        cbn [negb List.length]; f_equal; lia.
Qed.

Lemma crossed_markPassed bx p : crossed bx (markPassed bx p) = false.
Proof.
  unfold markPassed. destruct (crossed bx p) eqn:E; [reflexivity|exact E].
Qed.

(** The steps of [update] that follow the move leave pipes and score
    alone. *)
Lemma endGame_pipes g : pipes (endGame g) = pipes g.
Proof. unfold endGame. destruct (best _ <? score _)%Z; reflexivity. Qed.

Lemma endGame_score g : score (endGame g) = score g.
Proof. unfold endGame. destruct (best _ <? score _)%Z; reflexivity. Qed.

Lemma endGame_bird g : bird (endGame g) = bird g.
Proof. unfold endGame. destruct (best _ <? score _)%Z; reflexivity. Qed.

Lemma endGame_running g : running (endGame g) = false.
Proof. unfold endGame. destruct (best _ <? score _)%Z; reflexivity. Qed.

Lemma after_move_pipes g :
  pipes (deathCheck (pipeCheck (ceilingClamp (groundCheck g)))) = pipes g.
Proof.
  unfold deathCheck, pipeCheck, ceilingClamp, groundCheck.
  repeat match goal with
    | |- context [if ?c then _ else _] => destruct c; cbn
    end; rewrite ?endGame_pipes; reflexivity.
Qed.

Lemma after_move_score g :
  score (deathCheck (pipeCheck (ceilingClamp (groundCheck g)))) = score g.
Proof.
  unfold deathCheck, pipeCheck, ceilingClamp, groundCheck.
  repeat match goal with
    | |- context [if ?c then _ else _] => destruct c; cbn
    end; rewrite ?endGame_score; reflexivity.
Qed.

Lemma moveStep_pipes dt g :
  pipes (moveStep dt g) = fst (movePipes dt (Bird.x (bird g)) (pipes g) (score g)).
Proof.
  unfold moveStep. destruct (movePipes _ _ _ _) as [ps sc].
  destruct (sc =? score g)%Z; reflexivity.
Qed.

Lemma moveStep_score dt g :
  score (moveStep dt g) = snd (movePipes dt (Bird.x (bird g)) (pipes g) (score g)).
Proof.
  unfold moveStep. destruct (movePipes _ _ _ _) as [ps sc].
  destruct (sc =? score g)%Z; reflexivity.
Qed.

Lemma spawnStep_bird dt rnd g : bird (spawnStep dt rnd g) = bird g.
Proof. unfold spawnStep. destruct (geb _ _); reflexivity. Qed.

Lemma spawnStep_score dt rnd g : score (spawnStep dt rnd g) = score g.
Proof. unfold spawnStep. destruct (geb _ _); reflexivity. Qed.

Lemma spawnStep_pipes_ext dt rnd g1 g2 :
  pipes g1 = pipes g2 -> spawnTimer g1 = spawnTimer g2 ->
  width g1 = width g2 -> height g1 = height g2 ->
  pipes (spawnStep dt rnd g1) = pipes (spawnStep dt rnd g2).
Proof.
  intros Hp Ht Hw Hh. unfold spawnStep, spawnPipe. cbn. rewrite Ht.
  destruct (geb _ _); cbn; rewrite ?Hp, ?Hw, ?Hh; reflexivity.
Qed.

Lemma loop_running now rnd g :
  paused g = false -> running g = true -> Bird.alive (bird g) = true ->
  loop now rnd g = update (frameDt now g) rnd (set_lastTime now g).
Proof.
  intros P R A. unfold loop. rewrite P. cbn. rewrite R, A. reflexivity.
Qed.

(** Pipes and score after the update block. *)
Lemma update_pipes_score dt rnd g :
  let ps := List.map (advance dt) (pipes (spawnStep dt rnd g)) in
  score (update dt rnd g)
  = (score g + Z.of_nat (List.length (filter (crossed (Bird.x (bird g))) ps)))%Z
  /\ pipes (update dt rnd g)
     = filter onscreen (List.map (markPassed (Bird.x (bird g))) ps).
Proof.
  cbn zeta. unfold update.
  rewrite after_move_score, after_move_pipes, moveStep_score, moveStep_pipes.
  rewrite movePipes_spec. cbn [fst snd].
  rewrite spawnStep_bird, spawnStep_score. cbn [bird score set_bird].
  rewrite (spawnStep_pipes_ext _ rnd _ g) by reflexivity.
  split; reflexivity.
Qed.

Arguments endGame : simpl never.
Arguments update : simpl never.
Arguments loop : simpl never.

(** ** Ground, ceiling and pipes *)

Lemma moveStep_bird dt g : bird (moveStep dt g) = bird g.
Proof.
  unfold moveStep. destruct (movePipes _ _ _ _) as [ps sc].
  destruct (sc =? score g)%Z; reflexivity.
Qed.

Lemma moveStep_height dt g : height (moveStep dt g) = height g.
Proof.
  unfold moveStep. destruct (movePipes _ _ _ _) as [ps sc].
  destruct (sc =? score g)%Z; reflexivity.
Qed.

Lemma moveStep_clientHeight dt g : clientHeight (moveStep dt g) = clientHeight g.
Proof.
  unfold moveStep. destruct (movePipes _ _ _ _) as [ps sc].
  destruct (sc =? score g)%Z; reflexivity.
Qed.

Lemma moveStep_running dt g : running (moveStep dt g) = running g.
Proof.
  unfold moveStep. destruct (movePipes _ _ _ _) as [ps sc].
  destruct (sc =? score g)%Z; reflexivity.
Qed.

Lemma spawnStep_height dt rnd g : height (spawnStep dt rnd g) = height g.
Proof. unfold spawnStep. destruct (geb _ _); reflexivity. Qed.

Lemma spawnStep_clientHeight dt rnd g :
  clientHeight (spawnStep dt rnd g) = clientHeight g.
Proof. unfold spawnStep. destruct (geb _ _); reflexivity. Qed.

Lemma spawnStep_running dt rnd g : running (spawnStep dt rnd g) = running g.
Proof. unfold spawnStep. destruct (geb _ _); reflexivity. Qed.

Lemma collidePipe_alive v b p :
  collidePipe (Bird.set_alive v b) p = collidePipe b p.
Proof. reflexivity. Qed.

Lemma existsb_collide_alive v b ps :
  existsb (collidePipe (Bird.set_alive v b)) ps = existsb (collidePipe b) ps.
Proof. reflexivity. Qed.

(** Each test of the update block changes at most the bird. *)
Lemma groundCheck_eq g : groundCheck g = set_bird (grounded g (bird g)) g.
Proof.
  unfold groundCheck, grounded. destruct (gtb _ _); [reflexivity|].
  destruct g; reflexivity.
Qed.

Lemma ceilingClamp_eq g : ceilingClamp g = set_bird (clamped (bird g)) g.
Proof.
  unfold ceilingClamp, clamped. destruct (ltb _ _); [reflexivity|].
  destruct g; reflexivity.
Qed.

Lemma pipeCheck_eq g :
  pipeCheck g =
  set_bird (if existsb (collidePipe (bird g)) (pipes g)
            then Bird.set_alive false (bird g) else bird g) g.
Proof.
  unfold pipeCheck. destruct (existsb _ _); [reflexivity|].
  destruct g; reflexivity.
Qed.

Lemma deathCheck_bird g : bird (deathCheck g) = bird g.
Proof.
  unfold deathCheck. destruct (negb _); [apply endGame_bird|reflexivity].
Qed.

Lemma deathCheck_running g :
  running (deathCheck g) = running g && Bird.alive (bird g).
Proof.
  unfold deathCheck. destruct (Bird.alive (bird g)); cbn [negb].
  - rewrite andb_true_r. reflexivity.
  - rewrite endGame_running, andb_false_r. reflexivity.
Qed.

Lemma grounded_ext g1 g2 b :
  height g1 = height g2 -> clientHeight g1 = clientHeight g2 ->
  grounded g1 b = grounded g2 b.
Proof.
  intros Hh Hc. unfold grounded, groundHeight. rewrite Hh, Hc. reflexivity.
Qed.

(** The states of the update block before and after the three tests. *)
Lemma update_eq dt rnd g :
  let g3 := moveStep dt (spawnStep dt rnd
                           (set_bird (smoothRot dt (physics dt (bird g))) g)) in
  let b5 := clamped (grounded g (smoothRot dt (physics dt (bird g)))) in
  update dt rnd g =
  deathCheck
    (set_bird (if existsb (collidePipe b5) (pipes g3)
               then Bird.set_alive false b5 else b5) g3).
Proof.
  cbn zeta. unfold update.
  set (g3 := moveStep dt (spawnStep dt rnd (set_bird _ g))).
  assert (Hb : bird g3 = smoothRot dt (physics dt (bird g))).
  { subst g3. rewrite moveStep_bird, spawnStep_bird. reflexivity. }
  assert (Hg : forall b, grounded g3 b = grounded g b).
  { intros b. apply grounded_ext; subst g3.
    - rewrite moveStep_height, spawnStep_height. reflexivity.
    - rewrite moveStep_clientHeight, spawnStep_clientHeight. reflexivity. }
  rewrite pipeCheck_eq, ceilingClamp_eq, groundCheck_eq.
  cbn [bird pipes set_bird]. rewrite Hb, Hg.
  f_equal.
Qed.

(** The bird and the [running] flag that [update] leaves behind. *)
Lemma update_bird dt rnd g :
  let b := clamped (grounded g (smoothRot dt (physics dt (bird g)))) in
  bird (update dt rnd g) =
  if existsb (collidePipe b) (pipes (update dt rnd g))
  then Bird.set_alive false b else b.
Proof.
  cbn zeta.
  assert (Hp : pipes (update dt rnd g) =
               pipes (moveStep dt (spawnStep dt rnd
                 (set_bird (smoothRot dt (physics dt (bird g))) g)))).
  { unfold update. apply after_move_pipes. }
  rewrite Hp. rewrite update_eq. cbn zeta.
  rewrite deathCheck_bird. reflexivity.
Qed.

Lemma update_bird_x dt rnd g :
  Bird.x (bird (update dt rnd g)) = Bird.x (bird g).
Proof.
  rewrite update_bird. cbn zeta. unfold clamped, grounded.
  destruct (existsb _ _); destruct (gtb _ _); cbn [Bird.x Bird.y Bird.radius
    Bird.set_alive Bird.set_vy Bird.set_y];
    destruct (ltb _ _); reflexivity.
Qed.

Lemma update_running dt rnd g :
  running (update dt rnd g) =
  running g && Bird.alive (bird (update dt rnd g)).
Proof.
  rewrite <- (deathCheck_bird _) at 1.
  rewrite update_eq at 1 2. cbn zeta.
  rewrite deathCheck_running, !deathCheck_bird. cbn [running bird set_bird].
  rewrite moveStep_running, spawnStep_running. reflexivity.
Qed.

Lemma update_collides dt rnd g :
  existsb (collidePipe (bird (update dt rnd g))) (pipes (update dt rnd g)) =
  existsb
    (collidePipe (clamped (grounded g (smoothRot dt (physics dt (bird g))))))
    (pipes (update dt rnd g)).
Proof.
  rewrite update_bird at 1. cbn zeta.
  set (b := clamped _). set (ps := pipes _).
  destruct (existsb (collidePipe b) ps) eqn:E; [|exact E].
  rewrite existsb_collide_alive. exact E.
Qed.

Lemma clamped_alive b : Bird.alive (clamped b) = Bird.alive b.
Proof. unfold clamped. destruct (ltb _ _); reflexivity. Qed.

Lemma grounded_alive g b :
  Bird.alive (grounded g b) =
  Bird.alive b
  && negb (gtb (Bird.y b + Bird.radius b) (qz (height g) - groundHeight g)).
Proof.
  unfold grounded. destruct (gtb _ _); cbn.
  - rewrite andb_false_r. reflexivity.
  - rewrite andb_true_r. reflexivity.
Qed.

Lemma hitsGround_gtb g b :
  gtb (Bird.y b + Bird.radius b) (qz (height g) - groundHeight g) = true
  <-> hitsGround g b.
Proof. unfold gtb, hitsGround. apply ltb_true. Qed.

(** What a frame of a running session does to the bird's alive flag. *)
Lemma loop_alive now rnd g :
  paused g = false -> running g = true -> Bird.alive (bird g) = true ->
  Bird.alive (bird (loop now rnd g)) =
  negb (gtb (Bird.y (integrated now g) + Bird.radius (integrated now g))
          (qz (height g) - groundHeight g))
  && negb (existsb (collidePipe (bird (loop now rnd g))) (pipes (loop now rnd g))).
Proof.
  intros P R A. rewrite (loop_running now rnd g P R A).
  rewrite update_collides. rewrite update_bird at 1. cbn zeta.
  destruct (existsb _ _); cbn [Bird.alive Bird.set_alive].
  - rewrite andb_false_r. reflexivity.
  - rewrite clamped_alive, grounded_alive. cbn. rewrite A. cbn.
    rewrite andb_true_r. reflexivity.
Qed.

Lemma loop_running_flag now rnd g :
  paused g = false -> running g = true -> Bird.alive (bird g) = true ->
  running (loop now rnd g) = Bird.alive (bird (loop now rnd g)).
Proof.
  intros P R A. rewrite (loop_running now rnd g P R A), update_running.
  cbn [running set_lastTime]. rewrite R. reflexivity.
Qed.

Lemma groundHeight_480 g : clientHeight g = 480%Z -> groundHeight g = qz 58.
Proof. intros E. unfold groundHeight. rewrite E. apply Qc_is_canon. reflexivity. Qed.

(** C6, as stated, fails: the hovering bird meets the first pipe and dies
    in a frame in which it is far above the ground (y + 18 <= 422). *)
Lemma death_without_ground_contact :
  paused hovering = false /\ running hovering = true /\
  Bird.alive (bird hovering) = true /\
  height hovering = 480%Z /\ groundHeight hovering = qz 58 /\
  Bird.radius (bird hovering) = qz 18 /\
  Bird.alive (bird (loop (qz 2555) 0 hovering)) = false /\
  ~ qz 422 < Bird.y (integrated (qz 2555) hovering) + qz 18.
Proof.
  split; [vm_compute; reflexivity|].
  split; [vm_compute; reflexivity|].
  split; [vm_compute; reflexivity|].
  split; [vm_compute; reflexivity|].
  split; [apply groundHeight_480; vm_compute; reflexivity|].
  split; [apply Qc_is_canon; vm_compute; reflexivity|].
  split; [vm_compute; reflexivity|].
  intros H. apply ltb_true in H. vm_compute in H. discriminate.
Qed.

(** C6, amended: in a frame of a running session with a live bird, the
    bird dies exactly when, after bird physics, y + radius exceeds
    height - groundHeight, or a pipe collides with the bird where the
    frame leaves it; ground contact always kills, and a death ends the
    session in that frame.  With radius 18 on a canvas 480 high the ground
    test is y + 18 > 422. *)
Theorem loop_death_iff (now rnd : Qc) (g : Game) :
  paused g = false -> running g = true -> Bird.alive (bird g) = true ->
  let g' := loop now rnd g in
  let b := integrated now g in
  (Bird.alive (bird g') = false <->
     hitsGround g b \/ existsb (collidePipe (bird g')) (pipes g') = true)
  /\ (hitsGround g b -> Bird.alive (bird g') = false /\ running g' = false)
  /\ (Bird.alive (bird g') = false -> running g' = false)
  /\ (Bird.alive (bird g') = true -> running g' = true)
  /\ (height g = 480%Z -> clientHeight g = 480%Z ->
      Bird.radius (bird g) = qz 18 ->
      (hitsGround g b <-> qz 422 < Bird.y b + qz 18)).
Proof.
  intros P R A g' b.
  assert (Ha := loop_alive now rnd g P R A). fold g' b in Ha.
  assert (Hr := loop_running_flag now rnd g P R A). fold g' in Hr.
  assert (Hg := hitsGround_gtb g b).
  destruct (gtb (Bird.y b + Bird.radius b) (qz (height g) - groundHeight g));
    destruct (existsb (collidePipe (bird g')) (pipes g'));
    cbn in Ha; rewrite Hr, Ha.
  all: split; [|split; [|split; [|split]]];
    try solve [intuition congruence].
  all: intros Hh Hc Hrad; unfold hitsGround;
    rewrite Hh, (groundHeight_480 g Hc);
    replace (Bird.radius b) with (qz 18) by (rewrite <- Hrad; reflexivity);
    replace (qz 480 - qz 58) with (qz 422)
      by (apply Qc_is_canon; reflexivity);
    reflexivity.
Qed.

Lemma loop_death_iff_witness :
  paused falling = false /\ running falling = true /\
  Bird.alive (bird falling) = true /\
  hitsGround falling (integrated (qz 945) falling) /\
  Bird.alive (bird (loop (qz 945) 0 falling)) = false /\
  running (loop (qz 945) 0 falling) = false.
Proof.
  assert (P : paused falling = false) by (vm_compute; reflexivity).
  assert (R : running falling = true) by (vm_compute; reflexivity).
  assert (A : Bird.alive (bird falling) = true) by (vm_compute; reflexivity).
  assert (G : hitsGround falling (integrated (qz 945) falling))
    by (apply ltb_true; vm_compute; reflexivity).
  split; [exact P|]. split; [exact R|]. split; [exact A|]. split; [exact G|].
  exact (proj1 (proj2 (loop_death_iff (qz 945) 0 falling P R A)) G).
Defined.

(** What a frame of a running session does to the bird's position. *)
Lemma loop_y_vy now rnd g :
  paused g = false -> running g = true -> Bird.alive (bird g) = true ->
  let b := integrated now g in
  let g' := loop now rnd g in
  Bird.radius (bird g') = Bird.radius (bird g)
  /\ Bird.y (bird g') = (if ltb (Bird.y b - Bird.radius b) 0
                         then Bird.radius b else Bird.y b)
  /\ Bird.vy (bird g') = (if ltb (Bird.y b - Bird.radius b) 0
                          then 0 else Bird.vy b).
Proof.
  intros P R A b g'. subst g'. rewrite (loop_running now rnd g P R A).
  rewrite update_bird. cbn zeta.
  change (bird (set_lastTime now g)) with (bird g).
  fold (integrated now g). fold b.
  unfold clamped, grounded.
  destruct (existsb _ _); destruct (gtb _ _);
    cbn [Bird.x Bird.y Bird.vy Bird.radius Bird.set_alive Bird.set_vy Bird.set_y].
  all: change (Bird.y (smoothRot (frameDt now g) b)) with (Bird.y b).
  all: change (Bird.vy (smoothRot (frameDt now g) b)) with (Bird.vy b).
  all: change (Bird.radius (smoothRot (frameDt now g) b)) with (Bird.radius b).
  all: destruct (ltb (Bird.y b - Bird.radius b) 0);
    repeat split; reflexivity.
Qed.

(** C7, as stated, fails: the bird flown into the ceiling is clamped
    there in the frame in which the first pipe reaches it, and dies in
    that frame although the ground test does not hold. *)
Lemma death_at_the_ceiling :
  paused at_ceiling = false /\ running at_ceiling = true /\
  Bird.alive (bird at_ceiling) = true /\
  aboveCeiling (integrated (qz 2555) at_ceiling) /\
  ~ hitsGround at_ceiling (integrated (qz 2555) at_ceiling) /\
  Bird.alive (bird (loop (qz 2555) 0 at_ceiling)) = false /\
  running (loop (qz 2555) 0 at_ceiling) = false.
Proof.
  split; [vm_compute; reflexivity|].
  split; [vm_compute; reflexivity|].
  split; [vm_compute; reflexivity|].
  split; [apply ltb_true; vm_compute; reflexivity|].
  split; [intros H; apply ltb_true in H; vm_compute in H; discriminate|].
  split; vm_compute; reflexivity.
Qed.

(** C7, amended: at the end of a frame of a running session y - radius is
    not negative; and if bird physics puts y - radius below 0, the frame
    leaves y at exactly the radius and vy at exactly 0, and, when the
    ground test does not hold, the bird stays alive and the session
    running unless a pipe collides with the bird at the ceiling. *)
Theorem loop_ceiling_clamp (now rnd : Qc) (g : Game) :
  paused g = false -> running g = true -> Bird.alive (bird g) = true ->
  let g' := loop now rnd g in
  let b := integrated now g in
  0 <= Bird.y (bird g') - Bird.radius (bird g')
  /\ (aboveCeiling b ->
      Bird.y (bird g') = Bird.radius (bird g)
      /\ Bird.vy (bird g') = 0
      /\ (~ hitsGround g b ->
          (Bird.alive (bird g') = true /\ running g' = true <->
           existsb (collidePipe (bird g')) (pipes g') = false))).
Proof.
  intros P R A g' b.
  destruct (loop_y_vy now rnd g P R A) as (Hr & Hy & Hv).
  fold g' b in Hr, Hy, Hv.
  assert (Rb : Bird.radius b = Bird.radius (bird g)) by reflexivity.
  split.
  - rewrite Hy, Hr, <- Rb.
    destruct (ltb (Bird.y b - Bird.radius b) 0) eqn:E.
    + qc2q. lra.
    + apply ltb_false in E. exact E.
  - intros C. unfold aboveCeiling in C. apply ltb_true in C.
    rewrite C in Hy, Hv. rewrite Hy, Hv, Rb.
    split; [reflexivity|]. split; [reflexivity|].
    intros G.
    assert (Ha := loop_alive now rnd g P R A). fold g' b in Ha.
    assert (Hf := loop_running_flag now rnd g P R A). fold g' in Hf.
    destruct (gtb (Bird.y b + Bird.radius b) (qz (height g) - groundHeight g))
      eqn:E.
    + exfalso. apply G. apply hitsGround_gtb. exact E.
    + rewrite Hf, Ha. cbn.
      destruct (existsb (collidePipe (bird g')) (pipes g')); cbn;
        intuition congruence.
Qed.

Lemma loop_ceiling_clamp_witness :
  paused climbing = false /\ running climbing = true /\
  Bird.alive (bird climbing) = true /\
  aboveCeiling (integrated (qz 770) climbing) /\
  Bird.y (bird (loop (qz 770) 0 climbing)) = Bird.radius (bird climbing) /\
  Bird.vy (bird (loop (qz 770) 0 climbing)) = 0.
Proof.
  assert (P : paused climbing = false) by (vm_compute; reflexivity).
  assert (R : running climbing = true) by (vm_compute; reflexivity).
  assert (A : Bird.alive (bird climbing) = true) by (vm_compute; reflexivity).
  assert (C : aboveCeiling (integrated (qz 770) climbing))
    by (apply ltb_true; vm_compute; reflexivity).
  split; [exact P|]. split; [exact R|]. split; [exact A|]. split; [exact C|].
  destruct (proj2 (loop_ceiling_clamp (qz 770) 0 climbing P R A) C)
    as (Hy & Hv & _).
  split; [exact Hy|exact Hv].
Defined.

(** ** Scoring in a frame *)

(** C5: in a frame of a running session, with [ps] the pipes of that
    frame (the one spawned in it included) after their move, the score
    grows by the number of pipes of [ps] that are not yet passed and have
    their trailing edge strictly left of the bird; each of them is marked
    passed, whatever their number, and none that remains still counts. *)
Theorem loop_scores_every_crossed_pipe (now rnd : Qc) (g : Game) :
  paused g = false -> running g = true -> Bird.alive (bird g) = true ->
  let dt := frameDt now g in
  let bx := Bird.x (bird g) in
  let ps := List.map (advance dt) (pipes (spawnStep dt rnd g)) in
  let g' := loop now rnd g in
  score g' = (score g + Z.of_nat (List.length (filter (crossed bx) ps)))%Z
  /\ pipes g' = filter onscreen (List.map (markPassed bx) ps)
  /\ Bird.x (bird g') = bx
  /\ forall p, In p (pipes g') -> crossed bx p = false.
Proof.
  intros P R A dt bx ps g'.
  assert (Hs : score g' = (score g + Z.of_nat (List.length (filter (crossed bx) ps)))%Z
               /\ pipes g' = filter onscreen (List.map (markPassed bx) ps)).
  { subst g'. rewrite (loop_running now rnd g P R A).
    destruct (update_pipes_score (frameDt now g) rnd (set_lastTime now g))
      as [Hs Hp].
    rewrite (spawnStep_pipes_ext _ rnd _ g) in Hs, Hp by reflexivity.
    split; [exact Hs|exact Hp]. }
  destruct Hs as [Hs Hp]. repeat split; trivial.
  - subst g'. rewrite (loop_running now rnd g P R A).
    apply update_bird_x.
  - intros p Hin. rewrite Hp in Hin.
    apply filter_In in Hin. destruct Hin as [Hin _].
    apply in_map_iff in Hin. destruct Hin as (q & <- & _).
    apply crossed_markPassed.
Qed.

Lemma loop_scores_every_crossed_pipe_witness :
  paused two_crossing = false /\ running two_crossing = true /\
  Bird.alive (bird two_crossing) = true /\
  score (loop (qz 35) 0 two_crossing) = (score two_crossing + 2)%Z /\
  Bird.alive (bird (loop (qz 35) 0 two_crossing)) = true.
Proof.
  assert (P : paused two_crossing = false) by reflexivity.
  assert (R : running two_crossing = true) by reflexivity.
  assert (A : Bird.alive (bird two_crossing) = true) by reflexivity.
  split; [exact P|]. split; [exact R|]. split; [exact A|]. split.
  - rewrite (proj1 (loop_scores_every_crossed_pipe (qz 35) 0 two_crossing P R A)).
    vm_compute. reflexivity.
  - vm_compute. reflexivity.
Defined.

(** ** The best record *)

Lemma moveStep_best dt g : best (moveStep dt g) = best g.
Proof.
  unfold moveStep. destruct (movePipes _ _ _ _) as [ps sc].
  destruct (sc =? score g)%Z; reflexivity.
Qed.

Lemma spawnStep_best dt rnd g : best (spawnStep dt rnd g) = best g.
Proof. unfold spawnStep. destruct (geb _ _); reflexivity. Qed.

Lemma update_best dt rnd g :
  best (update dt rnd g) =
  if Bird.alive (bird (update dt rnd g)) then best g
  else Z.max (best g) (score (update dt rnd g)).
Proof.
  rewrite update_eq. cbn zeta.
  set (g6 := set_bird _ _).
  assert (B : best g6 = best g).
  { subst g6. cbn [best set_bird].
    rewrite moveStep_best, spawnStep_best. reflexivity. }
  rewrite deathCheck_bird. unfold deathCheck.
  destruct (Bird.alive (bird g6)); cbn [negb].
  - exact B.
  - rewrite endGame_best, endGame_score, B. reflexivity.
Qed.

(** One event: the record does not fall, and it moves only in a frame that
    ends the session with a score above it, to that score. *)
Lemma handle_best e s :
  (best s <= best (handle e s))%Z
  /\ (best (handle e s) <> best s ->
      endsSession e s /\ (best s < score (handle e s))%Z
      /\ best (handle e s) = score (handle e s)).
Proof.
  destruct e as [now|now|now|now|now|now rnd|cw ch]; cbn [handle].
  1-5, 7: split; [|intros N; exfalso; apply N].
  - cbn. lia.
  - reflexivity.
  - unfold doFlap. destruct (running s); cbn;
      destruct (Bird.alive (bird s)); cbn; lia.
  - unfold doFlap. destruct (running s); cbn;
      destruct (Bird.alive (bird s)); reflexivity.
  - cbn. lia.
  - reflexivity.
  - cbn. lia.
  - reflexivity.
  - destruct (paused s); cbn; destruct (running s); cbn; lia.
  - destruct (paused s); cbn; destruct (running s); reflexivity.
  - cbn. lia.
  - reflexivity.
  - destruct (paused s) eqn:P; [unfold loop; rewrite P; cbn; split; [lia|tauto]|].
    destruct (running s) eqn:R;
      [|unfold loop; rewrite P; cbn; rewrite R; cbn; split; [lia|tauto]].
    destruct (Bird.alive (bird s)) eqn:A;
      [|unfold loop; rewrite P; cbn; rewrite R, A; cbn; split; [lia|tauto]].
    assert (Hr : running (loop now rnd s) = Bird.alive (bird (loop now rnd s))).
    { rewrite (loop_running now rnd s P R A), update_running.
      cbn [running set_lastTime]. rewrite R. reflexivity. }
    assert (Hb := update_best (frameDt now s) rnd (set_lastTime now s)).
    rewrite <- (loop_running now rnd s P R A) in Hb.
    cbn [best set_lastTime] in Hb.
    destruct (Bird.alive (bird (loop now rnd s))) eqn:A'.
    + rewrite Hb. split; [lia|tauto].
    + rewrite Hb. split; [lia|]. intros N.
      split; [|lia].
      exists now, rnd. cbn [handle]. rewrite A', Hr. repeat split; trivial.
Qed.

(** C9: over any sequence of events the best record never decreases; an
    event changes it only if it is a frame that ends a session whose
    final score is strictly above the record, and then the record becomes
    that score. *)
Theorem best_only_grows :
  (forall tr s, (best s <= best (run tr s))%Z)
  /\ (forall e s,
        best (handle e s) <> best s ->
        endsSession e s /\ (best s < score (handle e s))%Z
        /\ best (handle e s) = score (handle e s)).
Proof.
  split.
  - induction tr as [|e tr IH]; intros s; cbn.
    + lia.
    + specialize (IH (handle e s)). unfold run in IH.
      pose proof (proj1 (handle_best e s)). lia.
  - intros e s. apply (proj2 (handle_best e s)).
Qed.

Lemma best_only_grows_witness :
  best (handle (Frame (qz 945) 0) falling_with_three) <> best falling_with_three
  /\ endsSession (Frame (qz 945) 0) falling_with_three
  /\ best (handle (Frame (qz 945) 0) falling_with_three) = 3%Z.
Proof.
  assert (N : best (handle (Frame (qz 945) 0) falling_with_three)
              <> best falling_with_three)
    by (vm_compute; discriminate).
  destruct (proj2 best_only_grows (Frame (qz 945) 0) falling_with_three N)
    as (E & _ & B).
  split; [exact N|]. split; [exact E|].
  rewrite B. vm_compute. reflexivity.
Defined.

(** ** A frame of no duration *)

Lemma frameDt_zero g : frameDt (lastTime g) g = 0.
Proof.
  unfold frameDt.
  replace ((lastTime g - lastTime g) / qz 1000) with 0
    by (unfold qz; field; discriminate).
  reflexivity.
Qed.

Lemma physics_zero b : physics 0 b = b.
Proof.
  destruct b as [x y vy r rot al].
  unfold physics, Bird.set_y, Bird.set_vy. cbn [Bird.x Bird.y Bird.vy Bird.radius Bird.rot Bird.alive].
  replace (vy + GRAVITY * 0) with vy by ring.
  replace (y + vy * 0) with y by ring.
  reflexivity.
Qed.

Lemma smoothRot_zero b : smoothRot 0 b = b.
Proof.
  unfold smoothRot.
  replace (Math_min 1 (0 * qz 8)) with 0 by reflexivity.
  replace (Bird.rot b + (targetRot b - Bird.rot b) * 0) with (Bird.rot b) by ring.
  destruct b; reflexivity.
Qed.

Lemma advance_zero p : advance 0 p = p.
Proof.
  unfold advance.
  replace (Pipe.x p - PIPE_SPEED * 0) with (Pipe.x p) by ring.
  destruct p; reflexivity.
Qed.

Lemma map_advance_zero ps : List.map (advance 0) ps = ps.
Proof.
  induction ps as [|p ps IH]; cbn; [reflexivity|].
  rewrite advance_zero, IH. reflexivity.
Qed.

Lemma markPassed_settled bx p : crossed bx p = false -> markPassed bx p = p.
Proof. intros C. unfold markPassed. rewrite C. reflexivity. Qed.

Lemma movePipes_settled bx ps sc :
  Forall (fun p => crossed bx p = false /\ onscreen p = true) ps ->
  movePipes 0 bx ps sc = (ps, sc).
Proof.
  intros F. rewrite movePipes_spec, map_advance_zero.
  assert (H1 : filter onscreen (List.map (markPassed bx) ps) = ps).
  { induction F as [|p ps [C O] F IH]; cbn [List.map filter]; [reflexivity|].
    rewrite (markPassed_settled bx p C), O, IH. reflexivity. }
  assert (H2 : filter (crossed bx) ps = []).
  { clear H1. induction F as [|p ps [C O] F IH]; cbn [filter]; [reflexivity|].
    rewrite C. exact IH. }
  rewrite H1, H2. cbn [List.length]. f_equal. lia.
Qed.

Lemma set_lastTime_same g : set_lastTime (lastTime g) g = g.
Proof. destruct g. reflexivity. Qed.

Lemma update_zero h rnd g :
  settled h g -> Bird.alive (bird g) = true -> update 0 rnd g = g.
Proof.
  intros (Hc & Hh & Hr & Hx & Ht & Hb & Hp) A.
  destruct (Hb A) as (G & C & X).
  unfold update. rewrite physics_zero, smoothRot_zero.
  assert (E1 : set_bird (bird g) g = g) by (destruct g; reflexivity).
  rewrite E1.
  assert (E2 : spawnStep 0 rnd g = g).
  { unfold spawnStep.
    replace (spawnTimer g + 0 * qz 1000) with (spawnTimer g) by ring.
    assert (E : set_spawnTimer (spawnTimer g) g = g) by (destruct g; reflexivity).
    rewrite E. unfold geb.
    apply ltb_true in Ht. rewrite Ht. reflexivity. }
  rewrite E2.
  assert (E3 : moveStep 0 g = g).
  { unfold moveStep. rewrite Hx, (movePipes_settled BIRD_X _ _ Hp).
    rewrite Z.eqb_refl. destruct g; reflexivity. }
  rewrite E3.
  assert (E4 : groundCheck g = g).
  { unfold groundCheck.
    destruct (gtb _ _) eqn:E; [|reflexivity].
    exfalso. apply G. apply hitsGround_gtb. exact E. }
  rewrite E4.
  assert (E5 : ceilingClamp g = g).
  { unfold ceilingClamp.
    destruct (ltb _ _) eqn:E; [|reflexivity].
    exfalso. apply C. apply ltb_true. exact E. }
  rewrite E5.
  unfold pipeCheck. rewrite X.
  unfold deathCheck. rewrite A. reflexivity.
Qed.

Lemma loop_zero h rnd g :
  settled h g -> loop (lastTime g) rnd g = g.
Proof.
  intros S. unfold loop. rewrite frameDt_zero, set_lastTime_same.
  destruct (paused g); [reflexivity|].
  destruct (running g); [|reflexivity].
  destruct (Bird.alive (bird g)) eqn:A; [|reflexivity].
  cbn. apply (update_zero h). exact S. exact A.
Qed.

(** *** What every frame leaves behind *)

Lemma reachable_run (ok : Game -> Event -> Prop) okb g0 tr :
  (forall s e, okb s e = true -> ok s e) ->
  forall s, reachable ok g0 s -> trace_okb okb tr s = true ->
  reachable ok g0 (run tr s).
Proof.
  intros Hok. induction tr as [|e tr IH]; intros s Hs Ht; cbn in *.
  - exact Hs.
  - apply andb_true_iff in Ht. destruct Ht as [He Ht].
    apply IH; [|exact Ht]. apply reach_step; [exact Hs|]. apply Hok, He.
Qed.

Lemma steadyb_ok s e : steadyb s e = true -> steady s e.
Proof. destruct e; cbn; intros H; [trivial..|discriminate]. Qed.

Lemma clock_okb_ok s e : clock_okb s e = true -> clock_ok s e.
Proof.
  destruct e; cbn; trivial.
  intros H. apply andb_true_iff in H. destruct H as [H H3].
  apply andb_true_iff in H. destruct H as [H1 H2].
  apply negb_true_iff in H1, H2.
  apply ltb_false in H1, H2. apply ltb_true in H3. auto.
Qed.

(** [settled] reads only the canvas height, [height], the spawn timer,
    the pipes, and the bird's position, radius and alive flag. *)
Lemma settled_ext h g g' :
  clientHeight g' = clientHeight g -> height g' = height g ->
  spawnTimer g' = spawnTimer g -> pipes g' = pipes g ->
  Bird.x (bird g') = Bird.x (bird g) -> Bird.y (bird g') = Bird.y (bird g) ->
  Bird.radius (bird g') = Bird.radius (bird g) ->
  Bird.alive (bird g') = Bird.alive (bird g) ->
  settled h g -> settled h g'.
Proof.
  intros Ec Eh Et Ep Ex Ey Er Ea.
  unfold settled, hitsGround, aboveCeiling, groundHeight, collidePipe.
  rewrite Ec, Eh, Et, Ep, Ex, Ey, Er, Ea. trivial.
Qed.

Lemma Math_floor_half h : Math_floor (qz h / qz 2) = qz (h / 2).
Proof.
  unfold Math_floor. f_equal.
  rewrite this_div. unfold qz. rewrite !this_Q2Qc.
  symmetry. apply Zdiv_Qdiv.
Qed.

Lemma Math_round_upper a : Math_round a <= a + qfrac 1 2.
Proof. unfold Math_round. apply Math_floor_bounds. Qed.

Lemma groundHeight_le g c :
  qz 34 <= c -> qz (clientHeight g) * qfrac 12 100 + qfrac 1 2 <= c ->
  groundHeight g <= c.
Proof.
  intros H1 H2. unfold groundHeight. apply Math_max_le; [exact H1|].
  eapply Qcle_trans; [apply Math_round_upper|exact H2].
Qed.

(** On a canvas at least 103 high the start position and the position at
    the ceiling are off the ground, and the start position is below the
    ceiling. *)
Lemma start_off_ground g :
  (103 <= clientHeight g)%Z ->
  qz (clientHeight g / 2) + qz 18 <= qz (clientHeight g) - groundHeight g.
Proof.
  intros H. remember (clientHeight g) as h eqn:Eh.
  assert (G : groundHeight g <= qz h - (qz (h / 2) + qz 18)).
  { apply groundHeight_le.
    - rewrite <- qz_add, <- qz_sub. apply qz_le_mono.
      pose proof (Z.mul_div_le h 2). lia.
    - rewrite <- Eh.
      assert (D : qz (h / 2 + h / 2) <= qz h).
      { apply qz_le_mono. pose proof (Z.mul_div_le h 2). lia. }
      rewrite qz_add in D. apply qz_le_mono in H.
      qc2q. lra. }
  qc2q. lra.
Qed.

Lemma ceiling_off_ground g :
  (103 <= clientHeight g)%Z ->
  qz 18 + qz 18 <= qz (clientHeight g) - groundHeight g.
Proof.
  intros H. remember (clientHeight g) as h eqn:Eh.
  assert (G : groundHeight g <= qz h - (qz 18 + qz 18)).
  { apply groundHeight_le.
    - rewrite <- qz_add, <- qz_sub. apply qz_le_mono. lia.
    - rewrite <- Eh. apply qz_le_mono in H. qc2q. lra. }
  qc2q. lra.
Qed.

Lemma reset_settled h now g :
  clientHeight g = h -> (103 <= h)%Z -> settled h (reset now g).
Proof.
  intros E H. subst h. unfold settled.
  split; [reflexivity|]. split; [reflexivity|].
  split; [reflexivity|]. split; [reflexivity|].
  split; [apply ltb_true; reflexivity|].
  split; [|constructor].
  intros _.
  assert (Ey : Bird.y (bird (reset now g)) = qz (clientHeight g / 2))
    by apply Math_floor_half.
  assert (Er : Bird.radius (bird (reset now g)) = qz 18) by reflexivity.
  split; [|split; [|reflexivity]].
  - unfold hitsGround. rewrite Ey, Er.
    change (height (reset now g)) with (clientHeight g).
    change (groundHeight (reset now g)) with (groundHeight g).
    apply Qcle_not_lt. apply start_off_ground. exact H.
  - unfold aboveCeiling. rewrite Ey, Er.
    apply Qcle_not_lt.
    assert (D : qz 18 <= qz (clientHeight g / 2)).
    { apply qz_le_mono. apply Z.div_le_lower_bound; lia. }
    qc2q. lra.
Qed.

(** ** The update block keeps the invariant *)

Lemma endGame_clientHeight g : clientHeight (endGame g) = clientHeight g.
Proof. unfold endGame. destruct (best _ <? score _)%Z; reflexivity. Qed.

Lemma endGame_height g : height (endGame g) = height g.
Proof. unfold endGame. destruct (best _ <? score _)%Z; reflexivity. Qed.

Lemma endGame_spawnTimer g : spawnTimer (endGame g) = spawnTimer g.
Proof. unfold endGame. destruct (best _ <? score _)%Z; reflexivity. Qed.

Lemma moveStep_spawnTimer dt g : spawnTimer (moveStep dt g) = spawnTimer g.
Proof.
  unfold moveStep. destruct (movePipes _ _ _ _) as [ps sc].
  destruct (sc =? score g)%Z; reflexivity.
Qed.

Lemma spawnStep_spawnTimer_lt dt rnd g :
  spawnTimer (spawnStep dt rnd g) < PIPE_INTERVAL.
Proof.
  unfold spawnStep. destruct (geb _ _) eqn:E.
  - apply ltb_true. reflexivity.
  - unfold geb in E. apply negb_false_iff in E. apply ltb_true. exact E.
Qed.

Lemma update_clientHeight dt rnd g :
  clientHeight (update dt rnd g) = clientHeight g.
Proof.
  rewrite update_eq. cbn zeta. unfold deathCheck.
  destruct (negb _); rewrite ?endGame_clientHeight; cbn [clientHeight set_bird];
    rewrite moveStep_clientHeight, spawnStep_clientHeight; reflexivity.
Qed.

Lemma update_height dt rnd g : height (update dt rnd g) = height g.
Proof.
  rewrite update_eq. cbn zeta. unfold deathCheck.
  destruct (negb _); rewrite ?endGame_height; cbn [height set_bird];
    rewrite moveStep_height, spawnStep_height; reflexivity.
Qed.

Lemma update_spawnTimer_lt dt rnd g :
  spawnTimer (update dt rnd g) < PIPE_INTERVAL.
Proof.
  rewrite update_eq. cbn zeta. unfold deathCheck.
  destruct (negb _); rewrite ?endGame_spawnTimer; cbn [spawnTimer set_bird];
    rewrite moveStep_spawnTimer; apply spawnStep_spawnTimer_lt.
Qed.

Lemma clamped_fields b :
  Bird.x (clamped b) = Bird.x b /\ Bird.radius (clamped b) = Bird.radius b
  /\ Bird.rot (clamped b) = Bird.rot b
  /\ Bird.y (clamped b) = (if ltb (Bird.y b - Bird.radius b) 0
                           then Bird.radius b else Bird.y b).
Proof. unfold clamped. destruct (ltb _ _); repeat split; reflexivity. Qed.

Lemma grounded_fields g b :
  Bird.x (grounded g b) = Bird.x b /\ Bird.radius (grounded g b) = Bird.radius b
  /\ Bird.rot (grounded g b) = Bird.rot b /\ Bird.y (grounded g b) = Bird.y b.
Proof. unfold grounded. destruct (gtb _ _); repeat split; reflexivity. Qed.

Lemma update_bird_radius dt rnd g :
  Bird.radius (bird (update dt rnd g)) = Bird.radius (bird g).
Proof.
  rewrite update_bird. cbn zeta.
  set (b1 := smoothRot dt (physics dt (bird g))).
  destruct (clamped_fields (grounded g b1)) as (_ & Hr & _).
  destruct (grounded_fields g b1) as (_ & Hr' & _).
  destruct (existsb _ _); cbn [Bird.radius Bird.set_alive];
    rewrite Hr, Hr'; reflexivity.
Qed.

Lemma update_bird_rot dt rnd g :
  Bird.rot (bird (update dt rnd g)) = Bird.rot (smoothRot dt (physics dt (bird g))).
Proof.
  rewrite update_bird. cbn zeta.
  set (b1 := smoothRot dt (physics dt (bird g))).
  destruct (clamped_fields (grounded g b1)) as (_ & _ & Hr & _).
  destruct (grounded_fields g b1) as (_ & _ & Hr' & _).
  destruct (existsb _ _); cbn [Bird.rot Bird.set_alive];
    rewrite Hr, Hr'; reflexivity.
Qed.

Lemma update_settled h dt rnd g :
  (103 <= h)%Z -> settled h g -> settled h (update dt rnd g).
Proof.
  intros H (Hc & Hh & Hr & Hx & Ht & Hb & Hp).
  unfold settled.
  split; [rewrite update_clientHeight; exact Hc|].
  split; [rewrite update_height; exact Hh|].
  split; [rewrite update_bird_radius; exact Hr|].
  split; [rewrite update_bird_x; exact Hx|].
  split; [apply update_spawnTimer_lt|].
  split.
  - intros A.
    assert (Hg : groundHeight (update dt rnd g) = groundHeight g)
      by (unfold groundHeight; rewrite update_clientHeight; reflexivity).
    unfold hitsGround, aboveCeiling. rewrite update_height, Hg.
    pose proof (update_bird dt rnd g) as Hu. cbn zeta in Hu.
    set (b1 := smoothRot dt (physics dt (bird g))) in *.
    destruct (existsb (collidePipe (clamped (grounded g b1)))
                (pipes (update dt rnd g))) eqn:Ex.
    { rewrite Hu in A. discriminate A. }
    rewrite Hu in *. clear Hu.
    destruct (clamped_fields (grounded g b1)) as (_ & Hr5 & _ & Hy5).
    destruct (grounded_fields g b1) as (_ & Hr4 & _ & Hy4).
    assert (Hr1 : Bird.radius b1 = qz 18) by (rewrite <- Hr; reflexivity).
    rewrite clamped_alive, grounded_alive in A.
    apply andb_true_iff in A. destruct A as [_ A].
    apply negb_true_iff in A. unfold gtb in A. apply ltb_false in A.
    rewrite Hr5, Hy5, Hr4, Hy4, Hr1. rewrite Hr1 in A.
    split; [|split; [|exact Ex]].
    + apply Qcle_not_lt.
      destruct (ltb (Bird.y b1 - qz 18) 0).
      * rewrite Hh, <- Hc. apply ceiling_off_ground. rewrite Hc. exact H.
      * exact A.
    + apply Qcle_not_lt.
      destruct (ltb (Bird.y b1 - qz 18) 0) eqn:E.
      * qc2q. lra.
      * apply ltb_false in E. exact E.
  - destruct (update_pipes_score dt rnd g) as [_ Hq]. rewrite Hq, Hx.
    apply Forall_forall. intros p Hin.
    apply filter_In in Hin. destruct Hin as [Hin Ho].
    apply in_map_iff in Hin. destruct Hin as (q & <- & _).
    split; [apply crossed_markPassed|exact Ho].
Qed.

Lemma handle_settled h e s :
  (103 <= h)%Z -> steady s e -> settled h s -> settled h (handle e s).
Proof.
  intros H St S.
  destruct e as [now|now|now|now|now|now rnd|cw ch]; cbn [handle].
  - apply reset_settled; [apply S|exact H].
  - apply (settled_ext h s); trivial;
      unfold doFlap; destruct (running s); cbn;
      destruct (Bird.alive (bird s)) eqn:A; cbn; rewrite ?A; reflexivity.
  - apply (settled_ext h s); trivial; reflexivity.
  - apply (settled_ext h s); trivial; reflexivity.
  - apply (settled_ext h s); trivial;
      destruct (paused s); cbn; destruct (running s); reflexivity.
  - unfold loop. destruct (paused s).
    + apply (settled_ext h s); trivial; reflexivity.
    + cbn [running bird set_lastTime].
      destruct (running s && Bird.alive (bird s)).
      * apply update_settled; [exact H|].
        apply (settled_ext h s); trivial; reflexivity.
      * apply (settled_ext h s); trivial; reflexivity.
  - destruct St.
Qed.

Lemma reachable_settled cw h best0 t0 s :
  (103 <= h)%Z ->
  reachable steady (initial cw h best0 t0) s -> settled h s.
Proof.
  intros H R. induction R as [|s e R IH St].
  - apply reset_settled; [reflexivity|exact H].
  - apply handle_settled; assumption.
Qed.

(** C4, as stated, fails: on a canvas 100 high the bird starts inside the
    ground band, and the first frame of the session, of duration 0, kills
    it and ends the session. *)
Lemma zero_frame_ends_session_on_low_canvas :
  reachable steady (initial 320 100 0 0) low_canvas /\
  frameDt (lastTime low_canvas) low_canvas = 0 /\
  Bird.alive (bird low_canvas) = true /\ running low_canvas = true /\
  Bird.alive (bird (loop (lastTime low_canvas) 0 low_canvas)) = false /\
  running (loop (lastTime low_canvas) 0 low_canvas) = false.
Proof.
  split.
  - apply reach_step; [apply reach_start|exact I].
  - split; [apply frameDt_zero|].
    split; [reflexivity|]. split; [reflexivity|].
    split; vm_compute; reflexivity.
Qed.

(** C4, amended: in every state reached, without a resize, on a canvas at
    least 103 high, a frame whose timestamp equals the last one has
    duration 0 and leaves the whole state as it is: bird, pipes, spawn
    timer, score, best record, flags and page. *)
Theorem zero_frame_changes_nothing (cw h best0 : Z) (t0 rnd : Qc) (s : Game) :
  (103 <= h)%Z ->
  reachable steady (initial cw h best0 t0) s ->
  frameDt (lastTime s) s = 0 /\ loop (lastTime s) rnd s = s.
Proof.
  intros H R. split; [apply frameDt_zero|].
  apply (loop_zero h). apply (reachable_settled cw h best0 t0); assumption.
Qed.

Lemma hovering_steady : reachable steady (initial 320 480 0 0) hovering.
Proof.
  apply (reachable_run steady steadyb _ _ steadyb_ok); [apply reach_start|].
  vm_compute. reflexivity.
Defined.

Lemma zero_frame_changes_nothing_witness :
  reachable steady (initial 320 480 0 0) hovering /\
  loop (lastTime hovering) 0 hovering = hovering.
Proof.
  split; [exact hovering_steady|].
  apply (zero_frame_changes_nothing 320 480 0 0 0 hovering); [lia|].
  exact hovering_steady.
Defined.

(** ** The orientation of the bird *)

Lemma MIN_ROT_le_0 : MIN_ROT <= 0.
Proof. apply ltb_false. vm_compute. reflexivity. Qed.

Lemma MAX_ROT_ge_0 : 0 <= MAX_ROT.
Proof. apply ltb_false. vm_compute. reflexivity. Qed.

Lemma Math_min_le_l a b : Math_min a b <= a.
Proof.
  unfold Math_min. destruct (ltb b a) eqn:E.
  - apply Qclt_le_weak, ltb_true, E.
  - apply Qcle_refl.
Qed.

Lemma Math_min_ge a b c : c <= a -> c <= b -> c <= Math_min a b.
Proof. unfold Math_min. destruct (ltb b a); trivial. Qed.

Lemma targetRot_bounds b :
  MIN_ROT <= targetRot b /\ targetRot b <= MAX_ROT.
Proof.
  unfold targetRot, clamp. split.
  - apply Math_max_l.
  - apply Math_max_le.
    + apply Qcle_trans with 0; [apply MIN_ROT_le_0|apply MAX_ROT_ge_0].
    + apply Math_min_le_l.
Qed.

Lemma frameDt_bounds now g :
  lastTime g <= now -> 0 <= frameDt now g /\ frameDt now g <= qfrac 35 1000.
Proof.
  intros L. unfold frameDt. split; [|apply Math_min_le_l].
  apply Math_min_ge.
  - apply ltb_false. vm_compute. reflexivity.
  - qc2q. lra.
Qed.

(** The smoothing step is a convex combination of the old angle and the
    target. *)
Lemma smoothRot_convex dt b :
  0 <= dt ->
  let t := Math_min 1 (dt * qz 8) in
  0 <= t /\ t <= 1
  /\ Bird.rot (smoothRot dt b) = (1 - t) * Bird.rot b + t * targetRot b.
Proof.
  intros D t. split; [|split].
  - apply Math_min_ge.
    + apply ltb_false. vm_compute. reflexivity.
    + qc2q. lra.
  - apply Math_min_le_l.
  - unfold smoothRot. cbn [Bird.rot Bird.set_rot]. fold t. ring.
Qed.

Lemma smoothRot_bounds dt b :
  0 <= dt ->
  MIN_ROT <= Bird.rot b -> Bird.rot b <= MAX_ROT ->
  MIN_ROT <= Bird.rot (smoothRot dt b) /\ Bird.rot (smoothRot dt b) <= MAX_ROT.
Proof.
  intros D L U.
  destruct (smoothRot_convex dt b D) as (T0 & T1 & E). cbn zeta in *.
  destruct (targetRot_bounds b) as [TL TU].
  rewrite E. clear E.
  set (t := Math_min 1 (dt * qz 8)) in *.
  set (r := Bird.rot b) in *. set (T := targetRot b) in *.
  clearbody t r T. clear D.
  split; qc2q; nra.
Qed.

Lemma handle_rot e s :
  clock_ok s e -> rot_in_bounds s -> rot_in_bounds (handle e s).
Proof.
  unfold rot_in_bounds. intros Ok [L U].
  destruct e as [now|now|now|now|now|now rnd|cw ch]; cbn [handle].
  - cbn [reset bird Bird.rot]. split; [apply MIN_ROT_le_0|apply MAX_ROT_ge_0].
  - unfold doFlap. destruct (running s); cbn;
      destruct (Bird.alive (bird s)); cbn;
      first [ split; assumption
            | split;
              [ apply Qcle_trans with 0; [apply MIN_ROT_le_0|apply MAX_ROT_ge_0]
              | apply Qcle_refl ] ].
  - split; assumption.
  - split; assumption.
  - destruct (paused s); cbn; destruct (running s); split; assumption.
  - destruct Ok as [Hc _]. unfold loop. destruct (paused s); [split; assumption|].
    cbn [running bird set_lastTime].
    destruct (running s && Bird.alive (bird s)); [|split; assumption].
    rewrite update_bird_rot. cbn [bird set_lastTime].
    apply smoothRot_bounds; [apply frameDt_bounds; exact Hc|exact L|exact U].
  - split; assumption.
Qed.

(** C10, as stated, fails: [loop] caps the duration of a frame from above
    only, so a frame whose timestamp lies before the last reading of the
    clock has a negative duration, and the smoothing step then moves the
    angle away from its target: after a flap at 1000 ms and a frame at
    999 ms the angle is above [MAX_ROT]. *)
Lemma rot_leaves_bounds_when_clock_runs_back :
  reachable any_event (initial 320 480 0 0) clock_back
  /\ frameDt (qz 999) (handle (Flap (qz 1000)) (initial 320 480 0 0)) < 0
  /\ MAX_ROT < Bird.rot (bird clock_back).
Proof.
  split.
  - unfold clock_back. apply reach_step; [|exact I].
    apply reach_step; [apply reach_start|exact I].
  - split; apply ltb_true; vm_compute; reflexivity.
Qed.

(** C10, amended: in every state reached from the start of the script
    with a clock that does not run backwards between the last reading
    and a frame, the orientation lies in [MIN_ROT, MAX_ROT]; [reset] sets
    it to 0, a flap of a live bird sets it to exactly [MAX_ROT], and for a
    frame of duration [dt] in [0, 0.035] the smoothing step is the convex
    combination, with factor [min(1, 8 dt)] in [0, 1], of the old angle and
    a target that lies within the same bounds. *)
Theorem rot_stays_in_bounds :
  (forall cw ch best0 t0 s,
      reachable clock_ok (initial cw ch best0 t0) s -> rot_in_bounds s)
  /\ (forall now g, Bird.rot (bird (reset now g)) = 0)
  /\ (forall now g,
        Bird.alive (bird g) = true -> Bird.rot (bird (doFlap now g)) = MAX_ROT)
  /\ (forall dt b,
        0 <= dt -> dt <= qfrac 35 1000 ->
        let t := Math_min 1 (dt * qz 8) in
        0 <= t /\ t <= 1
        /\ MIN_ROT <= targetRot b /\ targetRot b <= MAX_ROT
        /\ Bird.rot (smoothRot dt b) = (1 - t) * Bird.rot b + t * targetRot b).
Proof.
  split; [|split; [|split]].
  - intros cw ch best0 t0 s R. induction R as [|s e R IH Ok].
    + split; [apply MIN_ROT_le_0|apply MAX_ROT_ge_0].
    + apply handle_rot; assumption.
  - reflexivity.
  - intros now g A. unfold doFlap. destruct (running g); cbn; rewrite A; reflexivity.
  - intros dt b D _ t.
    destruct (smoothRot_convex dt b D) as (T0 & T1 & E).
    destruct (targetRot_bounds b) as [TL TU].
    repeat split; assumption.
Qed.

Lemma hovering_clock_ok : reachable clock_ok (initial 320 480 0 0) hovering.
Proof.
  apply (reachable_run clock_ok clock_okb _ _ clock_okb_ok); [apply reach_start|].
  vm_compute. reflexivity.
Defined.

Lemma rot_stays_in_bounds_witness :
  reachable clock_ok (initial 320 480 0 0) hovering /\ rot_in_bounds hovering.
Proof.
  split; [exact hovering_clock_ok|].
  exact (proj1 rot_stays_in_bounds 320%Z 480%Z 0%Z 0 hovering hovering_clock_ok).
Defined.

(** ** The score within a session *)

Lemma update_score_le dt rnd g : (score g <= score (update dt rnd g))%Z.
Proof.
  destruct (update_pipes_score dt rnd g) as [Hs _]. cbn zeta in Hs.
  rewrite Hs. lia.
Qed.

Lemma loop_score_le now rnd g : (score g <= score (loop now rnd g))%Z.
Proof.
  unfold loop. destruct (paused g); [cbn; lia|].
  cbn [running bird set_lastTime].
  destruct (running g && Bird.alive (bird g)); [|cbn; lia].
  apply (update_score_le _ rnd (set_lastTime now g)).
Qed.

Lemma handle_score_le e s :
  isRetry e = false -> (score s <= score (handle e s))%Z.
Proof.
  destruct e as [now|now|now|now|now|now rnd|cw ch]; cbn [handle isRetry];
    intros N; try discriminate.
  - unfold doFlap. destruct (running s); cbn;
      destruct (Bird.alive (bird s)); cbn; lia.
  - cbn. lia.
  - cbn. lia.
  - destruct (paused s); cbn; destruct (running s); cbn; lia.
  - apply loop_score_le.
  - cbn. lia.
Qed.

(** X1: the score never decreases over events other than a retry, and a
    retry sets it back to 0. *)
Theorem score_never_decreases (tr : list Event) (s : Game) :
  Forall (fun e => isRetry e = false) tr ->
  (score s <= score (run tr s))%Z
  /\ forall now, score (handle (Retry now) (run tr s)) = 0%Z.
Proof.
  intros F. split; [|reflexivity].
  revert s. induction F as [|e tr N F IH]; intros s; cbn.
  - lia.
  - specialize (IH (handle e s)). unfold run in IH.
    pose proof (handle_score_le e s N). lia.
Qed.

Lemma score_never_decreases_witness :
  (score two_crossing <= score (run [Frame (qz 35) 0; Flap (qz 40)] two_crossing))%Z
  /\ score (run [Frame (qz 35) 0; Flap (qz 40)] two_crossing) = 2%Z.
Proof.
  split.
  - apply (score_never_decreases [Frame (qz 35) 0; Flap (qz 40)] two_crossing).
    repeat constructor.
  - vm_compute. reflexivity.
Defined.

(** ** A session that is over *)

Lemma handle_dead e s :
  Bird.alive (bird s) = false -> isRetry e = false ->
  bird (handle e s) = bird s /\ pipes (handle e s) = pipes s /\
  spawnTimer (handle e s) = spawnTimer s /\ score (handle e s) = score s /\
  best (handle e s) = best s /\ page (handle e s) = page s.
Proof.
  intros D N.
  destruct e as [now|now|now|now|now|now rnd|cw ch]; cbn [handle isRetry] in *;
    try discriminate.
  - rewrite (doFlap_dead now s D). destruct (running s); repeat split.
  - repeat split.
  - repeat split.
  - destruct (paused s); cbn; destruct (running s); repeat split.
  - unfold loop. destruct (paused s); [repeat split|].
    cbn [running bird set_lastTime]. rewrite D, andb_false_r. repeat split.
  - repeat split.
Qed.

(** X2: once the bird is dead, no event but a retry changes the bird
    (so it stays dead), the pipes, the spawn timer, the score, the best
    record or the page: the session is frozen until it is reset. *)
Theorem dead_session_is_frozen (tr : list Event) (s : Game) :
  Bird.alive (bird s) = false ->
  Forall (fun e => isRetry e = false) tr ->
  bird (run tr s) = bird s /\ pipes (run tr s) = pipes s /\
  spawnTimer (run tr s) = spawnTimer s /\ score (run tr s) = score s /\
  best (run tr s) = best s /\ page (run tr s) = page s.
Proof.
  intros D F. revert s D. induction F as [|e tr N F IH]; intros s D; cbn.
  - repeat split.
  - destruct (handle_dead e s D N) as (Hb & Hp & Ht & Hs & Hbe & Hpa).
    assert (D' : Bird.alive (bird (handle e s)) = false) by (rewrite Hb; exact D).
    specialize (IH (handle e s) D'). unfold run in IH.
    destruct IH as (Ib & Ip & It & Is & Ibe & Ipa).
    rewrite Ib, Ip, It, Is, Ibe, Ipa. repeat split; assumption.
Qed.

Lemma dead_session_is_frozen_witness :
  Bird.alive (bird crashed) = false /\
  bird (run [Flap (qz 1000); Frame (qz 1035) 0; Start (qz 1040); Frame (qz 1070) 0]
          crashed) = bird crashed.
Proof.
  assert (D : Bird.alive (bird crashed) = false) by (vm_compute; reflexivity).
  split; [exact D|].
  apply (dead_session_is_frozen
           [Flap (qz 1000); Frame (qz 1035) 0; Start (qz 1040); Frame (qz 1070) 0]
           crashed D).
  repeat constructor.
Defined.

(** ** Flapping twice *)

(** X3: a second flap with no frame in between changes nothing: [doFlap]
    is idempotent, whatever the state and the times of the two calls. *)
Theorem doFlap_idempotent (now1 now2 : Qc) (s : Game) :
  doFlap now2 (doFlap now1 s) = doFlap now1 s.
Proof.
  destruct s as [cw ch w h [bx by_ bvy br brot al] ps st run lt sc be pa pg].
  unfold doFlap. destruct run, al; reflexivity.
Qed.

(** ** Pausing *)

Lemma paused_frames fs s :
  paused s = true ->
  paused (run (frameEvents fs) s) = true /\
  set_lastTime (lastTime s) (run (frameEvents fs) s) = s.
Proof.
  revert s. induction fs as [|[now rnd] fs IH]; intros s P; cbn.
  - split; [exact P|]. destruct s; reflexivity.
  - assert (E : loop now rnd s = set_lastTime now s)
      by (unfold loop; rewrite P; reflexivity).
    rewrite E.
    destruct (IH (set_lastTime now s) P) as [IP IE].
    unfold run, frameEvents in IP, IE. split; [exact IP|].
    apply (f_equal (set_lastTime (lastTime s))) in IE.
    transitivity (set_lastTime (lastTime s) (set_lastTime now s));
      [exact IE|exact (set_lastTime_same s)].
Qed.

Lemma keyP_pauses t s :
  paused s = false -> handle (KeyP t) s = set_paused true s.
Proof. intros P. cbn [handle]. cbn. rewrite P. reflexivity. Qed.

Lemma keyP_resumes l t s :
  paused s = true ->
  set_lastTime l (handle (KeyP t) s) = set_lastTime l (set_paused false s).
Proof.
  intros P. cbn [handle]. cbn. rewrite P. cbn.
  destruct (running s); reflexivity.
Qed.

(** X4: between a press of the p key that pauses and the press that
    resumes, frames, however many and whenever, advance nothing: after the
    resume the state is the one before the pause, except for the time of
    the last frame. *)
Theorem pause_withholds_frames (t1 t2 : Qc) (fs : list (Qc * Qc)) (s : Game) :
  paused s = false ->
  set_lastTime (lastTime s)
    (run (KeyP t1 :: frameEvents fs ++ [KeyP t2]) s) = s.
Proof.
  intros P. unfold run. cbn [fold_left]. rewrite fold_left_app.
  cbn [fold_left]. rewrite (keyP_pauses t1 s P).
  destruct (paused_frames fs (set_paused true s) eq_refl) as [P2 E2].
  unfold run in P2, E2.
  set (s2 := fold_left _ (frameEvents fs) _) in *.
  rewrite (keyP_resumes (lastTime s) t2 s2 P2).
  change (set_lastTime (lastTime s) (set_paused false s2))
    with (set_paused false (set_lastTime (lastTime (set_paused true s)) s2)).
  rewrite E2. destruct s; cbn in P; subst; reflexivity.
Qed.

Lemma pause_withholds_frames_witness :
  paused hovering = false /\
  set_lastTime (lastTime hovering)
    (run (KeyP (qz 2600)
            :: frameEvents [(qz 3000, 0); (qz 9000, qfrac 1 2)]
            ++ [KeyP (qz 9500)]) hovering) = hovering.
Proof.
  assert (P : paused hovering = false) by (vm_compute; reflexivity).
  split; [exact P|].
  exact (pause_withholds_frames (qz 2600) (qz 9500)
           [(qz 3000, 0); (qz 9000, qfrac 1 2)] hovering P).
Defined.

(** ** What the page shows *)







Lemma any_trace_reachable g0 tr : reachable any_event g0 (run tr g0).
Proof.
  apply (reachable_run any_event (fun _ _ => true)).
  - intros. exact I.
  - apply reach_start.
  - induction tr as [|e tr IH] in g0 |- *; cbn; [reflexivity|apply IH].
Defined.


(** ** The pipes on the screen *)

Lemma crossed_true bx p :
  crossed bx p = true <-> Pipe.passed p = false /\ Pipe.x p + PIPE_W < bx.
Proof.
  unfold crossed. rewrite andb_true_iff, negb_true_iff, ltb_true. reflexivity.
Qed.

Lemma crossed_false bx p :
  crossed bx p = false <-> Pipe.passed p = true \/ bx <= Pipe.x p + PIPE_W.
Proof.
  unfold crossed. rewrite andb_false_iff, negb_false_iff, ltb_false. reflexivity.
Qed.

Lemma StronglySorted_map_ahead (f : Pipe.t -> Pipe.t) ps :
  (forall p q, ahead p q -> ahead (f p) (f q)) ->
  StronglySorted ahead ps -> StronglySorted ahead (List.map f ps).
Proof.
  intros Hf S. induction S as [|p ps S IH F]; cbn; constructor.
  - exact IH.
  - apply Forall_forall. intros q Hq.
    apply in_map_iff in Hq. destruct Hq as (q0 & <- & Hq0).
    apply Hf. rewrite Forall_forall in F. apply F, Hq0.
Qed.

Lemma StronglySorted_filter_ahead (f : Pipe.t -> bool) ps :
  StronglySorted ahead ps -> StronglySorted ahead (filter f ps).
Proof.
  intros S. induction S as [|p ps S IH F]; cbn; [constructor|].
  destruct (f p); [|exact IH]. constructor; [exact IH|].
  apply Forall_forall. intros q Hq. apply filter_In in Hq.
  rewrite Forall_forall in F. apply F, Hq.
Qed.

Lemma StronglySorted_snoc_ahead ps q :
  StronglySorted ahead ps -> Forall (fun p => ahead p q) ps ->
  StronglySorted ahead (ps ++ [q]).
Proof.
  intros S. induction S as [|p ps S IH F]; intros A; cbn.
  - constructor; constructor.
  - inversion A as [|? ? Apq A']; subst. constructor; [apply IH, A'|].
    apply Forall_app. split; [exact F|]. constructor; [exact Apq|constructor].
Qed.

Lemma filter_none {A} (f : A -> bool) l :
  (forall q, In q l -> f q = false) -> filter f l = [].
Proof.
  induction l as [|a l IH]; intros H; cbn; [reflexivity|].
  rewrite (H a (or_introl eq_refl)). apply IH.
  intros q Hq. apply H. right. exact Hq.
Qed.

Lemma ahead_advance dt p q : ahead p q -> ahead (advance dt p) (advance dt q).
Proof.
  unfold ahead, advance. cbn [Pipe.x Pipe.set_x]. intros H.
  unfold PIPE_SPACING, PIPE_SPEED in *. qc2q. lra.
Qed.

Lemma ahead_markPassed bx p q :
  ahead p q -> ahead (markPassed bx p) (markPassed bx q).
Proof.
  unfold ahead, markPassed.
  destruct (crossed bx p); destruct (crossed bx q); trivial.
Qed.

(** The two ways in which the spawn step leaves the timer and the pipes. *)
Lemma spawnStep_cases dt rnd g :
  (spawnTimer g + dt * qz 1000 < PIPE_INTERVAL
   /\ spawnTimer (spawnStep dt rnd g) = spawnTimer g + dt * qz 1000
   /\ pipes (spawnStep dt rnd g) = pipes g)
  \/ (PIPE_INTERVAL <= spawnTimer g + dt * qz 1000
      /\ spawnTimer (spawnStep dt rnd g) = 0
      /\ exists top,
          pipes (spawnStep dt rnd g)
          = pipes g ++ [Pipe.mk (qz (width g) + qz 20) top (top + PIPE_GAP) false]).
Proof.
  unfold spawnStep. cbn [spawnTimer set_spawnTimer].
  destruct (geb _ _) eqn:E; unfold geb in E.
  - right. apply negb_true_iff, ltb_false in E.
    split; [exact E|]. split; [reflexivity|]. eexists. reflexivity.
  - left. apply negb_false_iff, ltb_true in E.
    split; [exact E|]. split; reflexivity.
Qed.

Lemma update_width dt rnd g : width (update dt rnd g) = width g.
Proof.
  rewrite update_eq. cbn zeta. unfold deathCheck.
  assert (E : forall x, width (endGame x) = width x)
    by (intros x; unfold endGame; destruct (best _ <? score _)%Z; reflexivity).
  destruct (negb _); rewrite ?E; cbn [width set_bird];
    unfold moveStep; destruct (movePipes _ _ _ _) as [ps sc];
    destruct (sc =? _)%Z; cbn [width set_page set_score set_pipes];
    unfold spawnStep; destruct (geb _ _); reflexivity.
Qed.

Lemma update_spawnTimer dt rnd g :
  spawnTimer (update dt rnd g) = spawnTimer (spawnStep dt rnd g).
Proof.
  rewrite update_eq. cbn zeta. unfold deathCheck.
  destruct (negb _); rewrite ?endGame_spawnTimer; cbn [spawnTimer set_bird];
    rewrite moveStep_spawnTimer; unfold spawnStep; cbn [spawnTimer set_bird
      set_spawnTimer]; destruct (geb _ _); reflexivity.
Qed.

(** The pipes of a frame after their move, before scoring and removal. *)
Lemma moved_pipes dt rnd g :
  dt <= qfrac 35 1000 -> orderly g ->
  let ps := List.map (advance dt) (pipes (spawnStep dt rnd g)) in
  Forall (fun p => Pipe.bottom p = Pipe.top p + PIPE_GAP) ps
  /\ Forall (fun p => Pipe.x p <= qz (width g) + qz 20
                      - qfrac 18 100 * spawnTimer (spawnStep dt rnd g)) ps
  /\ StronglySorted ahead ps
  /\ (List.length (filter (crossed BIRD_X) ps) <= 1)%nat.
Proof.
  intros D (Hx & Hr & Ht & Hp & Hb & Hs). cbn zeta.
  assert (Hold :
    Forall (fun p => Pipe.bottom p = Pipe.top p + PIPE_GAP)
      (List.map (advance dt) (pipes g))
    /\ Forall (fun p => Pipe.x p <= qz (width g) + qz 20
                 - qfrac 18 100 * (spawnTimer g + dt * qz 1000))
         (List.map (advance dt) (pipes g))
    /\ StronglySorted ahead (List.map (advance dt) (pipes g))
    /\ Forall (fun p => crossed BIRD_X p = true -> qfrac 537 10 <= Pipe.x p)
         (List.map (advance dt) (pipes g))).
  { split; [|split; [|split]].
    - apply Forall_forall. intros p Hin. apply in_map_iff in Hin.
      destruct Hin as (q & <- & Hq). rewrite Forall_forall in Hp.
      apply (Hp q Hq).
    - apply Forall_forall. intros p Hin. apply in_map_iff in Hin.
      destruct Hin as (q & <- & Hq). rewrite Forall_forall in Hb.
      specialize (Hb q Hq). unfold behindSpawn in Hb.
      unfold advance. cbn [Pipe.x Pipe.set_x]. unfold PIPE_SPEED.
      qc2q. lra.
    - apply StronglySorted_map_ahead; [apply ahead_advance|exact Hs].
    - apply Forall_forall. intros p Hin C. apply in_map_iff in Hin.
      destruct Hin as (q & <- & Hq). rewrite Forall_forall in Hp.
      destruct (Hp q Hq) as (_ & _ & Cq).
      apply crossed_true in C. destruct C as [Pa _].
      apply crossed_false in Cq. destruct Cq as [Pq|Cq].
      + cbn in Pa. congruence.
      + unfold advance. cbn [Pipe.x Pipe.set_x].
        unfold PIPE_SPEED, BIRD_X, PIPE_W in *. qc2q. lra. }
  destruct Hold as (Og & Ob & Os & Oc).
  assert (Count : forall l,
    StronglySorted ahead l ->
    Forall (fun p => crossed BIRD_X p = true -> qfrac 537 10 <= Pipe.x p) l ->
    (List.length (filter (crossed BIRD_X) l) <= 1)%nat).
  { intros l S. induction S as [|p l S IH F]; intros C; cbn; [lia|].
    inversion C as [|? ? Cp C']; subst.
    destruct (crossed BIRD_X p) eqn:E; [|apply IH, C'].
    assert (N : filter (crossed BIRD_X) l = []).
    { specialize (Cp eq_refl). apply filter_none. intros q Hq.
      rewrite Forall_forall in F. specialize (F q Hq).
      destruct (crossed BIRD_X q) eqn:Eq; [|reflexivity].
      exfalso. apply crossed_true in Eq. destruct Eq as [_ Eq].
      unfold ahead, PIPE_SPACING, BIRD_X, PIPE_W in *. qc2q. lra. }
    rewrite N. cbn. lia. }
  destruct (spawnStep_cases dt rnd g) as [(L & -> & ->)|(L & -> & top & ->)].
  - split; [exact Og|]. split; [exact Ob|]. split; [exact Os|].
    apply Count; assumption.
  - rewrite map_app. cbn [List.map].
    set (n := advance dt (Pipe.mk (qz (width g) + qz 20) top (top + PIPE_GAP) false)).
    assert (An : Forall (fun p => ahead p n) (List.map (advance dt) (pipes g))).
    { apply Forall_forall. intros p Hin. rewrite Forall_forall in Ob.
      specialize (Ob p Hin). subst n. unfold ahead, advance.
      cbn [Pipe.x Pipe.set_x].
      unfold PIPE_SPACING, PIPE_SPEED, PIPE_INTERVAL in *. qc2q. lra. }
    split; [|split; [|split]].
    + apply Forall_app. split; [exact Og|]. constructor; [reflexivity|constructor].
    + apply Forall_app. split.
      * apply Forall_forall. intros p Hin. rewrite Forall_forall in Ob.
        specialize (Ob p Hin).
        unfold PIPE_INTERVAL in *. qc2q. lra.
      * constructor; [|constructor]. subst n. unfold advance.
        cbn [Pipe.x Pipe.set_x].
        unfold PIPE_SPEED, PIPE_INTERVAL in *. qc2q. lra.
    + apply StronglySorted_snoc_ahead; assumption.
    + rewrite filter_app, length_app. cbn [filter].
      destruct (crossed BIRD_X n) eqn:En; cbn [List.length].
      * assert (N : filter (crossed BIRD_X) (List.map (advance dt) (pipes g)) = []).
        { apply crossed_true in En. destruct En as [_ En].
          apply filter_none. intros q Hq.
          rewrite Forall_forall in An, Oc.
          specialize (An q Hq). specialize (Oc q Hq).
          destruct (crossed BIRD_X q) eqn:Eq; [|reflexivity].
          exfalso. specialize (Oc eq_refl).
          unfold ahead, PIPE_SPACING, BIRD_X, PIPE_W in *. qc2q. lra. }
        rewrite N. cbn. lia.
      * pose proof (Count _ Os Oc). lia.
Qed.

Lemma orderly_ext g g' :
  Bird.x (bird g') = Bird.x (bird g) ->
  Bird.radius (bird g') = Bird.radius (bird g) ->
  spawnTimer g' = spawnTimer g -> pipes g' = pipes g -> width g' = width g ->
  orderly g -> orderly g'.
Proof.
  intros Ex Er Et Ep Ew. unfold orderly, behindSpawn.
  rewrite Ex, Er, Et, Ep, Ew. trivial.
Qed.

Lemma update_orderly dt rnd g :
  dt <= qfrac 35 1000 -> orderly g -> orderly (update dt rnd g).
Proof.
  intros D O.
  destruct (moved_pipes dt rnd g D O) as (Mg & Mb & Ms & _).
  destruct O as (Hx & Hr & Ht & Hp & Hb & Hs).
  destruct (update_pipes_score dt rnd g) as [_ Hq]. cbn zeta in Hq.
  rewrite Hx in Hq.
  set (ps := List.map (advance dt) (pipes (spawnStep dt rnd g))) in *.
  unfold orderly.
  split; [rewrite update_bird_x; exact Hx|].
  split; [rewrite update_bird_radius; exact Hr|].
  split; [apply update_spawnTimer_lt|].
  rewrite Hq. split; [|split].
  - apply Forall_forall. intros p Hin.
    apply filter_In in Hin. destruct Hin as [Hin Ho].
    apply in_map_iff in Hin. destruct Hin as (q & <- & Hq0).
    rewrite Forall_forall in Mg. specialize (Mg q Hq0).
    split; [|split; [exact Ho|apply crossed_markPassed]].
    unfold markPassed. destruct (crossed BIRD_X q); exact Mg.
  - apply Forall_forall. intros p Hin.
    apply filter_In in Hin. destruct Hin as [Hin _].
    apply in_map_iff in Hin. destruct Hin as (q & <- & Hq0).
    rewrite Forall_forall in Mb. specialize (Mb q Hq0).
    unfold behindSpawn. rewrite update_width, update_spawnTimer.
    unfold markPassed. destruct (crossed BIRD_X q); exact Mb.
  - apply StronglySorted_filter_ahead.
    apply StronglySorted_map_ahead; [apply ahead_markPassed|exact Ms].
Qed.

Lemma frameDt_le now g : frameDt now g <= qfrac 35 1000.
Proof. unfold frameDt. apply Math_min_le_l. Qed.

Lemma handle_orderly e s : orderly s -> orderly (handle e s).
Proof.
  intros O.
  destruct e as [now|now|now|now|now|now rnd|cw ch]; cbn [handle].
  - unfold orderly. cbn.
    split; [reflexivity|]. split; [reflexivity|].
    split; [apply ltb_true; reflexivity|].
    split; [constructor|]. split; constructor.
  - apply (orderly_ext s); trivial;
      destruct s as [cw ch w h [bx by_ bvy br brot al] ps st run lt sc be pa pg];
      unfold doFlap; destruct run, al; reflexivity.
  - exact O.
  - exact O.
  - apply (orderly_ext s); trivial;
      destruct s as [cw ch w h b ps st run lt sc be pa pg];
      cbn; destruct pa, run; reflexivity.
  - unfold loop. destruct (paused s); [exact O|].
    cbn [running bird set_lastTime].
    destruct (running s && Bird.alive (bird s)); [|exact O].
    apply update_orderly; [apply frameDt_le|exact O].
  - exact O.
Qed.

Lemma reachable_orderly cw ch best0 t0 s :
  reachable any_event (initial cw ch best0 t0) s -> orderly s.
Proof.
  intros R. induction R as [|s e R IH _].
  - unfold orderly. cbn.
    split; [reflexivity|]. split; [reflexivity|].
    split; [apply ltb_true; reflexivity|].
    split; [constructor|]. split; constructor.
  - apply handle_orderly. exact IH.
Qed.

(** X6: whatever happens after the script has started, every pipe in the
    array has a gap of exactly [PIPE_GAP], has not yet left the screen by
    more than 40 px, and has been counted if its trailing edge is left of
    the bird; the bird keeps x = 120 and radius 18, and the spawn timer
    stays below the spawn interval. *)
Theorem pipes_stay_well_formed (cw ch best0 : Z) (t0 : Qc) (s : Game) :
  reachable any_event (initial cw ch best0 t0) s ->
  Bird.x (bird s) = BIRD_X /\ Bird.radius (bird s) = qz 18 /\
  spawnTimer s < PIPE_INTERVAL /\
  forall p, In p (pipes s) ->
    Pipe.bottom p = Pipe.top p + PIPE_GAP
    /\ qz (-40) <= Pipe.x p + PIPE_W
    /\ (Pipe.passed p = true \/ BIRD_X <= Pipe.x p + PIPE_W).
Proof.
  intros R. destruct (reachable_orderly cw ch best0 t0 s R)
    as (Hx & Hr & Ht & Hp & _).
  split; [exact Hx|]. split; [exact Hr|]. split; [exact Ht|].
  intros p Hin. rewrite Forall_forall in Hp.
  destruct (Hp p Hin) as (G & O & C).
  split; [exact G|]. split.
  - unfold onscreen in O. apply negb_true_iff, ltb_false in O. exact O.
  - apply crossed_false. exact C.
Qed.

Lemma hovering_reachable : reachable any_event (initial 320 480 0 0) hovering.
Proof. apply any_trace_reachable. Defined.

Lemma pipes_stay_well_formed_witness :
  reachable any_event (initial 320 480 0 0) hovering /\
  pipes hovering <> [] /\
  forall p, In p (pipes hovering) ->
    Pipe.bottom p = Pipe.top p + PIPE_GAP.
Proof.
  split; [exact hovering_reachable|]. split.
  - vm_compute. discriminate.
  - intros p Hin.
    apply (pipes_stay_well_formed 320 480 0 0 hovering hovering_reachable).
    exact Hin.
Defined.

(** X7: whatever happens after the script has started, consecutive pipes
    of the array are at least 245.7 px apart (a spawn interval at pipe
    speed, less the longest frame), in spawn order from left to right; so
    no frame counts more than one pipe. *)
Theorem one_point_per_frame (cw ch best0 : Z) (t0 : Qc) (s : Game) :
  reachable any_event (initial cw ch best0 t0) s ->
  StronglySorted ahead (pipes s)
  /\ forall now rnd, (score (loop now rnd s) <= score s + 1)%Z.
Proof.
  intros R. pose proof (reachable_orderly cw ch best0 t0 s R) as O.
  split; [apply O|].
  intros now rnd. unfold loop. destruct (paused s); [cbn; lia|].
  cbn [running bird set_lastTime].
  destruct (running s && Bird.alive (bird s)); [|cbn; lia].
  assert (O' : orderly (set_lastTime now s)) by exact O.
  destruct (moved_pipes (frameDt now s) rnd (set_lastTime now s)
              (frameDt_le now s) O') as (_ & _ & _ & C).
  destruct (update_pipes_score (frameDt now s) rnd (set_lastTime now s))
    as [Hs _].
  cbn zeta in Hs, C. rewrite Hs.
  replace (Bird.x (bird (set_lastTime now s))) with BIRD_X
    by (symmetry; apply O).
  cbn [score set_lastTime]. lia.
Qed.

Lemma one_point_per_frame_witness :
  reachable any_event (initial 320 480 0 0) hovering /\
  (score (loop (qz 2555) 0 hovering) <= score hovering + 1)%Z.
Proof.
  split; [exact hovering_reachable|].
  apply (proj2 (one_point_per_frame 320 480 0 0 hovering hovering_reachable)).
Defined.

(** ** How fast the bird climbs *)

Lemma handle_vy e s :
  clock_ok s e -> FLAP_VY <= Bird.vy (bird s) ->
  FLAP_VY <= Bird.vy (bird (handle e s)).
Proof.
  intros Ok V.
  destruct e as [now|now|now|now|now|now rnd|cw ch]; cbn [handle].
  - cbn. apply ltb_false. reflexivity.
  - destruct s as [cw ch w h [bx by_ bvy br brot al] ps st run lt sc be pa pg].
    unfold doFlap. destruct run, al; cbn in *;
      first [exact V | apply Qcle_refl].
  - exact V.
  - exact V.
  - destruct s as [cw ch w h b ps st run lt sc be pa pg].
    cbn. destruct pa, run; exact V.
  - destruct Ok as [Hc _].
    destruct (paused s) eqn:P; [unfold loop; rewrite P; exact V|].
    destruct (running s) eqn:R;
      [|unfold loop; rewrite P; cbn; rewrite R; exact V].
    destruct (Bird.alive (bird s)) eqn:A;
      [|unfold loop; rewrite P; cbn; rewrite R, A; exact V].
    destruct (loop_y_vy now rnd s P R A) as (_ & _ & Hv). cbn zeta in Hv.
    rewrite Hv. destruct (ltb _ _).
    + apply ltb_false. reflexivity.
    + unfold integrated, physics. cbn [Bird.vy Bird.set_vy Bird.set_y].
      destruct (frameDt_bounds now s Hc) as [D0 _].
      unfold GRAVITY, FLAP_VY in *. qc2q. nra.
  - exact V.
Qed.

Lemma reachable_vy cw ch best0 t0 s :
  reachable clock_ok (initial cw ch best0 t0) s -> FLAP_VY <= Bird.vy (bird s).
Proof.
  intros R. induction R as [|s e R IH Ok].
  - cbn. apply ltb_false. reflexivity.
  - apply handle_vy; assumption.
Qed.

(** X8: with a clock that does not run backwards, the bird never moves up
    faster than the flap impulse of 350 px/s, and so no frame lifts it by
    more than 350 * 0.035 = 12.25 px. *)
Theorem bird_climbs_at_most_flap_speed (cw ch best0 : Z) (t0 : Qc) (s : Game) :
  reachable clock_ok (initial cw ch best0 t0) s ->
  FLAP_VY <= Bird.vy (bird s)
  /\ forall now rnd,
       lastTime s <= now ->
       Bird.y (bird s) - qfrac 1225 100 <= Bird.y (bird (loop now rnd s)).
Proof.
  intros R. pose proof (reachable_vy cw ch best0 t0 s R) as V.
  split; [exact V|].
  intros now rnd Hc.
  assert (Same : Bird.y (bird s) - qfrac 1225 100 <= Bird.y (bird s))
    by (qc2q; lra).
  destruct (paused s) eqn:P; [unfold loop; rewrite P; exact Same|].
  destruct (running s) eqn:Ru;
    [|unfold loop; rewrite P; cbn; rewrite Ru; exact Same].
  destruct (Bird.alive (bird s)) eqn:A;
    [|unfold loop; rewrite P; cbn; rewrite Ru, A; exact Same].
  destruct (loop_y_vy now rnd s P Ru A) as (_ & Hy & _). cbn zeta in Hy.
  rewrite Hy.
  destruct (frameDt_bounds now s Hc) as [D0 D1].
  assert (Yb : Bird.y (bird s) - qfrac 1225 100 <= Bird.y (integrated now s)).
  { unfold integrated, physics. cbn [Bird.y Bird.vy Bird.set_vy Bird.set_y].
    set (dt := frameDt now s) in *. clearbody dt.
    unfold GRAVITY, FLAP_VY in *. qc2q. nra. }
  destruct (ltb _ _) eqn:E; [|exact Yb].
  apply ltb_true in E.
  apply Qcle_trans with (Bird.y (integrated now s)); [exact Yb|].
  qc2q. lra.
Qed.

Lemma bird_climbs_at_most_flap_speed_witness :
  reachable clock_ok (initial 320 480 0 0) hovering /\
  FLAP_VY <= Bird.vy (bird hovering).
Proof.
  split; [exact hovering_clock_ok|].
  exact (proj1 (bird_climbs_at_most_flap_speed 320 480 0 0 hovering
                  hovering_clock_ok)).
Defined.

(** ** The collision test and the true shapes *)

Lemma collidePipe_true b p :
  collidePipe b p = true <-> collides b p.
Proof.
  unfold collidePipe, collides, overlaps, gtb.
  rewrite <- !ltb_true.
  destruct (ltb (Pipe.x p) (Bird.x b + Bird.radius b));
  destruct (ltb (Bird.x b - Bird.radius b) (Pipe.x p + PIPE_W));
  destruct (ltb (Bird.y b - Bird.radius b) (Pipe.top p));
  destruct (ltb (Pipe.bottom p) (Bird.y b + Bird.radius b));
  cbn; intuition congruence.
Qed.

Lemma Q_in_disc (d e r : Q) :
  (0 <= r -> d * d + e * e <= r * r ->
   d <= r /\ - d <= r /\ e <= r /\ - e <= r)%Q.
Proof.
  intros Hr D.
  assert (Dd : (0 <= d * d)%Q) by nra.
  assert (De : (0 <= e * e)%Q) by nra.
  repeat split.
  - destruct (Qlt_le_dec r d) as [H|H]; [|exact H].
    exfalso. assert (0 < d + r)%Q by lra. nra.
  - destruct (Qlt_le_dec r (- d)) as [H|H]; [|exact H].
    exfalso. assert (0 < r - d)%Q by lra. nra.
  - destruct (Qlt_le_dec r e) as [H|H]; [|exact H].
    exfalso. assert (0 < e + r)%Q by lra. nra.
  - destruct (Qlt_le_dec r (- e)) as [H|H]; [|exact H].
    exfalso. assert (0 < r - e)%Q by lra. nra.
Qed.

(** X9: the band test never misses a real overlap: if some point of the
    bird's disc lies strictly inside the upper or the lower segment of a
    pipe, [collidePipe] is true. *)
Theorem collidePipe_sees_every_overlap (b : Bird.t) (p : Pipe.t) (px py : Qc) :
  0 <= Bird.radius b ->
  inDisc b px py -> inPipe p px py -> collidePipe b p = true.
Proof.
  intros Hr D (X1 & X2 & Y). apply collidePipe_true.
  unfold collides, overlaps. unfold inDisc in D.
  set (bx := Bird.x b) in *. set (by_ := Bird.y b) in *.
  set (r := Bird.radius b) in *. set (x := Pipe.x p) in *.
  set (tp := Pipe.top p) in *. set (bt := Pipe.bottom p) in *.
  clearbody bx by_ r x tp bt.
  unfold PIPE_W in *. qc2q.
  destruct (Q_in_disc _ _ _ Hr D) as (B1 & B2 & B3 & B4). clear D.
  split; [split|].
  - qc_goal. lra.
  - qc_goal. lra.
  - destruct Y as [Y|Y]; [left|right]; qc_goal; lra.
Qed.

Lemma collidePipe_sees_every_overlap_witness :
  inDisc (fixture_bird 90) (qz 130) (qz 95) /\
  inPipe fixture_pipe (qz 130) (qz 95) /\
  collidePipe (fixture_bird 90) fixture_pipe = true.
Proof.
  assert (D : inDisc (fixture_bird 90) (qz 130) (qz 95))
    by (apply ltb_false; vm_compute; reflexivity).
  assert (I : inPipe fixture_pipe (qz 130) (qz 95)).
  { split; [apply ltb_true; vm_compute; reflexivity|].
    split; [apply ltb_true; vm_compute; reflexivity|].
    left. apply ltb_true. vm_compute. reflexivity. }
  split; [exact D|]. split; [exact I|].
  apply (collidePipe_sees_every_overlap (fixture_bird 90) fixture_pipe
           (qz 130) (qz 95)); [|exact D|exact I].
  apply ltb_false. vm_compute. reflexivity.
Defined.

(** ** Clouds *)

Lemma moveCloud_keeps cw c :
  qz 0 <= qz cw -> qz 60 <= Cloud.w c -> qz 8 <= Cloud.vx c ->
  Cloud.x c <= qz cw + qz 40 ->
  let c' := moveCloud cw c in
  qz (-20) <= Cloud.x c' + Cloud.w c' /\ Cloud.x c' <= qz cw + qz 40
  /\ Cloud.w c' = Cloud.w c /\ Cloud.vx c' = Cloud.vx c
  /\ Cloud.y c' = Cloud.y c /\ Cloud.h c' = Cloud.h c.
Proof.
  intros Hc Hw Hv Hx. cbn zeta. unfold moveCloud.
  cbn [Cloud.x Cloud.y Cloud.w Cloud.h Cloud.vx].
  destruct (ltb _ _) eqn:E.
  - repeat split; try reflexivity.
    + qc2q. lra.
    + apply Qcle_refl.
  - apply ltb_false in E. repeat split; try reflexivity.
    + exact E.
    + qc2q. lra.
Qed.

(** X11: on a canvas of constant width, a cloud made by [initClouds]
    never leaves the view for good: after any number of frames its right
    edge is at most 20 px left of the canvas and its left edge at most
    40 px right of it (where a cloud that has drifted out re-enters), and
    its size and speed are those it was made with: a width in [60, 180), a
    height in [18, 46), a speed in [8, 26). *)
Theorem clouds_wrap_around (n : nat) (cw ch : Z) (r1 r2 r3 r4 r5 : Qc) :
  (0 <= cw)%Z ->
  unit_random r1 -> unit_random r3 -> unit_random r4 -> unit_random r5 ->
  let c := moveCloudN n cw (initCloud cw ch r1 r2 r3 r4 r5) in
  qz (-20) <= Cloud.x c + Cloud.w c /\ Cloud.x c <= qz cw + qz 40
  /\ qz 60 <= Cloud.w c /\ Cloud.w c < qz 180
  /\ qz 18 <= Cloud.h c /\ Cloud.h c < qz 46
  /\ qz 8 <= Cloud.vx c /\ Cloud.vx c < qz 26.
Proof.
  intros Hcw [R1 R1'] [R3 R3'] [R4 R4'] [R5 R5']. cbn zeta.
  assert (Hc : qz 0 <= qz cw) by (apply qz_le_mono; exact Hcw).
  set (c0 := initCloud cw ch r1 r2 r3 r4 r5).
  assert (W0 : qz 60 <= Cloud.w c0 /\ Cloud.w c0 < qz 180)
    by (cbn; split; qc2q; lra).
  assert (H0 : qz 18 <= Cloud.h c0 /\ Cloud.h c0 < qz 46)
    by (cbn; split; qc2q; lra).
  assert (V0 : qz 8 <= Cloud.vx c0 /\ Cloud.vx c0 < qz 26)
    by (cbn; split; qc2q; lra).
  assert (X0 : qz (-20) <= Cloud.x c0 + Cloud.w c0
               /\ Cloud.x c0 <= qz cw + qz 40).
  { destruct W0 as [W0 _]. cbn in *. split; qc2q; nra. }
  clearbody c0.
  assert (I : qz (-20) <= Cloud.x (moveCloudN n cw c0) + Cloud.w (moveCloudN n cw c0)
              /\ Cloud.x (moveCloudN n cw c0) <= qz cw + qz 40
              /\ Cloud.w (moveCloudN n cw c0) = Cloud.w c0
              /\ Cloud.vx (moveCloudN n cw c0) = Cloud.vx c0
              /\ Cloud.h (moveCloudN n cw c0) = Cloud.h c0).
  { induction n as [|n IH]; cbn [moveCloudN].
    - destruct X0. repeat split; trivial.
    - destruct IH as (I1 & I2 & I3 & I4 & I5).
      destruct (moveCloud_keeps cw (moveCloudN n cw c0) Hc) as
        (K1 & K2 & K3 & K4 & _ & K6).
      + rewrite I3. apply W0.
      + rewrite I4. apply V0.
      + exact I2.
      + cbn zeta in *. rewrite K3, K4, K6 in *. repeat split; trivial. }
  destruct I as (I1 & I2 & I3 & I4 & I5).
  rewrite I3, I4, I5 in *.
  destruct W0, H0, V0. repeat split; trivial.
Qed.

Lemma clouds_wrap_around_witness :
  (0 <= 320)%Z /\ unit_random (qfrac 1 2) /\ unit_random 0 /\
  qz (-20) <=
    Cloud.x (moveCloudN 200 320
               (initCloud 320 480 (qfrac 1 2) 0 (qfrac 1 2) 0 (qfrac 1 2)))
    + Cloud.w (moveCloudN 200 320
                 (initCloud 320 480 (qfrac 1 2) 0 (qfrac 1 2) 0 (qfrac 1 2))).
Proof.
  assert (U0 : unit_random 0)
    by (split; [apply ltb_false|apply ltb_true]; reflexivity).
  assert (U : unit_random (qfrac 1 2))
    by (split; [apply ltb_false|apply ltb_true]; reflexivity).
  assert (Z0 : (0 <= 320)%Z) by lia.
  split; [exact Z0|]. split; [exact U|]. split; [exact U0|].
  exact (proj1 (clouds_wrap_around 200 320 480 (qfrac 1 2) 0 (qfrac 1 2) 0
                  (qfrac 1 2) Z0 U U U0 U)).
Defined.

(** ** Waiting for the first flap *)

Lemma idle_frames fs s :
  running s = false ->
  running (run (frameEvents fs) s) = false /\
  set_lastTime (lastTime s) (run (frameEvents fs) s) = s.
Proof.
  revert s. induction fs as [|[now rnd] fs IH]; intros s R; cbn.
  - split; [exact R|]. apply set_lastTime_same.
  - assert (E : loop now rnd s = set_lastTime now s).
    { unfold loop. destruct (paused s); [reflexivity|].
      cbn [running set_lastTime]. rewrite R. reflexivity. }
    rewrite E.
    destruct (IH (set_lastTime now s) R) as [IP IE].
    unfold run, frameEvents in IP, IE. split; [exact IP|].
    apply (f_equal (set_lastTime (lastTime s))) in IE.
    transitivity (set_lastTime (lastTime s) (set_lastTime now s));
      [exact IE|exact (set_lastTime_same s)].
Qed.

(** X12: while the game is not running (after a reset, or after READY),
    frames, however many, change nothing but the time of the last frame;
    the next flap starts the run and restarts the clock at its own time,
    so that the first frame of the run is measured from the flap. *)
Theorem frames_wait_for_the_first_flap (fs : list (Qc * Qc)) (t : Qc) (s : Game) :
  running s = false ->
  set_lastTime (lastTime s) (run (frameEvents fs) s) = s
  /\ running (handle (Flap t) (run (frameEvents fs) s)) = true
  /\ lastTime (handle (Flap t) (run (frameEvents fs) s)) = t.
Proof.
  intros R. destruct (idle_frames fs s R) as [R' E].
  split; [exact E|].
  set (s' := run (frameEvents fs) s) in *. cbn [handle]. unfold doFlap.
  rewrite R'. cbn. destruct (Bird.alive (bird s')); split; reflexivity.
Qed.

Lemma frames_wait_for_the_first_flap_witness :
  running (initial 320 480 0 0) = false /\
  set_lastTime (lastTime (initial 320 480 0 0))
    (run (frameEvents [(qz 16, 0); (qz 33, 0); (qz 5000, 0)]) (initial 320 480 0 0))
  = initial 320 480 0 0.
Proof.
  split; [reflexivity|].
  exact (proj1 (frames_wait_for_the_first_flap
                  [(qz 16, 0); (qz 33, 0); (qz 5000, 0)] 0
                  (initial 320 480 0 0) eq_refl)).
Defined.

(** ** The target of the orientation *)

Lemma MIN_ROT_lt_MAX_ROT : MIN_ROT < MAX_ROT.
Proof. apply ltb_true. vm_compute. reflexivity. Qed.

Lemma Math_min_r_le a b : b <= a -> Math_min a b = b \/ (Math_min a b = a /\ a = b).
Proof.
  intros H. unfold Math_min. destruct (ltb b a) eqn:E; [left; reflexivity|].
  right. split; [reflexivity|]. apply ltb_false in E. apply Qcle_antisym; assumption.
Qed.

Lemma clamp_inside v a b : a <= v -> v <= b -> clamp v a b = v.
Proof.
  intros L U. unfold clamp, Math_max, Math_min.
  destruct (ltb v b) eqn:E1.
  - destruct (ltb a v) eqn:E2; [reflexivity|].
    apply ltb_false in E2. apply Qcle_antisym; assumption.
  - apply ltb_false in E1.
    assert (E : b = v) by (apply Qcle_antisym; assumption). subst b.
    destruct (ltb a v) eqn:E2; [reflexivity|].
    apply ltb_false in E2. apply Qcle_antisym; assumption.
Qed.

Lemma clamp_below v a b : v <= a -> a <= b -> clamp v a b = a.
Proof.
  intros L U. unfold clamp, Math_max, Math_min.
  destruct (ltb v b) eqn:E1.
  - destruct (ltb a v) eqn:E2; [|reflexivity].
    apply ltb_true in E2. exfalso. exact (Qcle_not_lt _ _ L E2).
  - apply ltb_false in E1.
    destruct (ltb a b) eqn:E2; [|reflexivity].
    apply ltb_true in E2. exfalso.
    apply (Qcle_not_lt _ _ (Qcle_trans _ _ _ E1 L) E2).
Qed.

Lemma clamp_above v a b : b <= v -> a <= b -> clamp v a b = b.
Proof.
  intros L U. unfold clamp, Math_max, Math_min.
  destruct (ltb v b) eqn:E1.
  - apply ltb_true in E1. exfalso. exact (Qcle_not_lt _ _ L E1).
  - destruct (ltb a b) eqn:E2; [reflexivity|].
    apply ltb_false in E2. apply Qcle_antisym; assumption.
Qed.

(** X13: the angle the bird leans towards falls linearly with its
    velocity, from full nose-up at -400 px/s to full nose-dive at 600 px/s,
    and stays at those bounds beyond: [clamp] cuts the line of [map] off at
    both ends. *)
Theorem targetRot_of_velocity (b : Bird.t) :
  (Bird.vy b <= qz (-400) -> targetRot b = MAX_ROT)
  /\ (qz 600 <= Bird.vy b -> targetRot b = MIN_ROT)
  /\ (qz (-400) <= Bird.vy b -> Bird.vy b <= qz 600 ->
      targetRot b
      = MAX_ROT + (Bird.vy b + qz 400) * (MIN_ROT - MAX_ROT) / qz 1000).
Proof.
  pose proof MIN_ROT_lt_MAX_ROT as LT.
  assert (LE : MIN_ROT <= MAX_ROT) by (apply Qclt_le_weak; exact LT).
  assert (M : map (Bird.vy b) (qz (-400)) (qz 600) MAX_ROT MIN_ROT
              = MAX_ROT + (Bird.vy b + qz 400) * (MIN_ROT - MAX_ROT) / qz 1000).
  { unfold map.
    replace (qz 600 - qz (-400)) with (qz 1000)
      by (rewrite <- qz_sub; reflexivity).
    replace (Bird.vy b - qz (-400)) with (Bird.vy b + qz 400)
      by (qc2q; lra).
    reflexivity. }
  unfold targetRot. rewrite M.
  set (v := Bird.vy b). clearbody v.
  set (lo := MIN_ROT) in *. set (hi := MAX_ROT) in *. clearbody lo hi.
  split; [|split].
  - intros H. apply clamp_above; [|exact LE]. qc2q. nra.
  - intros H. apply clamp_below; [|exact LE]. qc2q. nra.
  - intros H1 H2. apply clamp_inside; qc2q; nra.
Qed.

(** ** The ground band *)

(** X14: the ground band is a whole number of pixels, at least 34 and at
    least 12% of the canvas height less half a pixel, at most half a pixel
    more than the larger of 34 and 12% of the height, and at most 120
    exactly on canvases up to 1004 high. *)
Theorem groundHeight_bounds (g : Game) :
  (exists k : Z, groundHeight g = qz k)
  /\ qz 34 <= groundHeight g
  /\ qz (clientHeight g) * qfrac 12 100 - qfrac 1 2 <= groundHeight g
  /\ groundHeight g
     <= Math_max (qz 34) (qz (clientHeight g) * qfrac 12 100 + qfrac 1 2)
  /\ (groundHeight g <= qz 120 <-> (clientHeight g <= 1004)%Z).
Proof.
  set (a := qz (clientHeight g) * qfrac 12 100).
  assert (Rl : a - qfrac 1 2 <= Math_round a).
  { destruct (Math_floor_bounds (a + qfrac 1 2)) as [_ U].
    unfold Math_round. apply Qclt_le_weak. revert U.
    generalize (Math_floor (a + qfrac 1 2)). intros f U. qc2q. lra. }
  split; [|split; [|split; [|split]]].
  - unfold groundHeight, Math_max. fold a.
    destruct (ltb _ _); [|exists 34%Z; reflexivity].
    unfold Math_round, Math_floor. eexists. reflexivity.
  - apply Math_max_l.
  - apply Qcle_trans with (Math_round a); [exact Rl|apply Math_max_r].
  - unfold groundHeight. fold a. apply Math_max_le.
    + apply Math_max_l.
    + apply Qcle_trans with (a + qfrac 1 2);
        [apply Math_round_upper|apply Math_max_r].
  - split.
    + intros H.
      assert (H' : a - qfrac 1 2 <= qz 120).
      { apply Qcle_trans with (groundHeight g); [|exact H].
        apply Qcle_trans with (Math_round a); [exact Rl|apply Math_max_r]. }
      destruct (Z_le_gt_dec (clientHeight g) 1004) as [L|L]; [exact L|].
      exfalso.
      assert (G : Math_round a <= qz 120)
        by (apply Qcle_trans with (groundHeight g); [apply Math_max_r|exact H]).
      assert (L' : qz 1005 <= qz (clientHeight g)) by (apply qz_le_mono; lia).
      destruct (Math_floor_bounds (a + qfrac 1 2)) as [_ U].
      fold (Math_round a) in U. subst a. revert G U.
      generalize (Math_round (qz (clientHeight g) * qfrac 12 100)).
      intros f G U. qc2q. lra.
    + apply groundHeight_le_120.
Qed.

Lemma targetRot_of_velocity_witness :
  qz 600 <= Bird.vy (bird falling) /\ targetRot (bird falling) = MIN_ROT.
Proof.
  assert (V : qz 600 <= Bird.vy (bird falling))
    by (apply ltb_false; vm_compute; reflexivity).
  split; [exact V|].
  exact (proj1 (proj2 (targetRot_of_velocity (bird falling))) V).
Defined.

(** ** Pipes and the playfield *)

Lemma reachable_weaken (ok1 ok2 : Game -> Event -> Prop) g0 s :
  (forall s e, ok1 s e -> ok2 s e) ->
  reachable ok1 g0 s -> reachable ok2 g0 s.
Proof.
  intros W R. induction R as [|s e R IH Ok].
  - apply reach_start.
  - apply reach_step; [exact IH|apply W, Ok].
Qed.

Lemma fairb_fair s e : fairb s e = true -> fair s e.
Proof.
  destruct e; cbn; intros H; trivial; try discriminate.
  apply andb_true_iff in H. destruct H as [H1 H2].
  apply negb_true_iff, ltb_false in H1. apply ltb_true in H2.
  split; assumption.
Qed.

Lemma spawnPipe_keeps_bounds rnd g :
  height g = clientHeight g -> (307 <= height g <= 1004)%Z ->
  unit_random rnd ->
  Forall (gap_in_bounds g) (pipes g) ->
  Forall (gap_in_bounds g) (pipes (spawnPipe rnd g)).
Proof.
  intros E [Hl Hu] [R0 R1] F.
  unfold spawnPipe. cbn [pipes set_pipes].
  apply Forall_app. split; [exact F|]. constructor; [|constructor].
  destruct (floor_random rnd (qz (height g) - PIPE_GAP - qz 120 - qz 48 + 1)
              (height g - 307) R0 R1) as (f & Ef & F0 & F1).
  { unfold PIPE_GAP. change 1 with (qz 1). rewrite <- !qz_sub, <- qz_add.
    f_equal. lia. }
  { lia. }
  unfold gap_in_bounds. cbn [Pipe.top]. rewrite Ef.
  assert (G : groundHeight g <= qz 120)
    by (apply groundHeight_le_120; lia).
  assert (G' : groundHeight g <= qz (height g) - qz 188).
  { rewrite E. apply groundHeight_le.
    - rewrite <- qz_sub. apply qz_le_mono. lia.
    - rewrite <- E. apply qz_le_mono in Hl. qc2q. lra. }
  apply qz_le_mono in F0.
  assert (F2 : qz f <= qz (height g) - qz 308 \/ qz f <= qz 0).
  { destruct (Z.max_spec 0 (height g - 307 - 1)) as [[_ M]|[_ M]];
      rewrite M in F1; apply qz_le_mono in F1.
    - left. rewrite <- qz_sub.
      replace (height g - 308)%Z with (height g - 307 - 1)%Z by lia. exact F1.
    - right. exact F1. }
  unfold PIPE_GAP. split.
  - clear F2. qc2q. lra.
  - destruct F2 as [F2|F2]; qc2q; lra.
Qed.

Lemma spawnStep_pipes_cases dt rnd g :
  pipes (spawnStep dt rnd g) = pipes g
  \/ pipes (spawnStep dt rnd g) = pipes (spawnPipe rnd g).
Proof.
  unfold spawnStep. destruct (geb _ _); [right|left]; reflexivity.
Qed.

Lemma gap_in_bounds_ext g g' p :
  height g' = height g -> clientHeight g' = clientHeight g ->
  gap_in_bounds g p -> gap_in_bounds g' p.
Proof.
  intros Eh Ec. unfold gap_in_bounds, groundHeight. rewrite Eh, Ec. trivial.
Qed.

Lemma update_keeps_bounds h dt rnd g :
  (307 <= h <= 1004)%Z -> unit_random rnd ->
  height g = h -> clientHeight g = h ->
  Forall (gap_in_bounds g) (pipes g) ->
  Forall (gap_in_bounds (update dt rnd g)) (pipes (update dt rnd g)).
Proof.
  intros H U Eh Ec F.
  assert (S : Forall (gap_in_bounds g) (pipes (spawnStep dt rnd g))).
  { destruct (spawnStep_pipes_cases dt rnd g) as [->| ->]; [exact F|].
    apply spawnPipe_keeps_bounds; trivial; [congruence|rewrite Eh; exact H]. }
  destruct (update_pipes_score dt rnd g) as [_ Hq]. cbn zeta in Hq.
  rewrite Hq. apply Forall_forall. intros p Hin.
  apply filter_In in Hin. destruct Hin as [Hin _].
  apply in_map_iff in Hin. destruct Hin as (q1 & <- & Hin).
  apply in_map_iff in Hin. destruct Hin as (q0 & <- & Hin).
  rewrite Forall_forall in S. specialize (S q0 Hin).
  apply (gap_in_bounds_ext g);
    [apply update_height|apply update_clientHeight|].
  unfold gap_in_bounds, markPassed in *.
  destruct (crossed _ _); exact S.
Qed.

Lemma handle_keeps_bounds h e s :
  (307 <= h <= 1004)%Z -> fair s e ->
  height s = h /\ clientHeight s = h /\ Forall (gap_in_bounds s) (pipes s) ->
  height (handle e s) = h /\ clientHeight (handle e s) = h
  /\ Forall (gap_in_bounds (handle e s)) (pipes (handle e s)).
Proof.
  intros H Fa (Eh & Ec & F).
  destruct e as [now|now|now|now|now|now rnd|cw ch]; cbn [handle].
  - cbn. repeat split; trivial.
  - destruct s as [cw ch w hh [bx by_ bvy br brot al] ps st run lt sc be pa pg].
    unfold doFlap. destruct run, al; repeat split; trivial.
  - repeat split; trivial.
  - repeat split; trivial.
  - destruct s as [cw ch w hh b ps st run lt sc be pa pg].
    cbn. destruct pa, run; repeat split; trivial.
  - unfold loop. destruct (paused s); [repeat split; trivial|].
    cbn [running bird set_lastTime].
    destruct (running s && Bird.alive (bird s)); [|repeat split; trivial].
    split; [rewrite update_height; exact Eh|].
    split; [rewrite update_clientHeight; exact Ec|].
    apply (update_keeps_bounds h); trivial.
  - destruct Fa.
Qed.

(** X15: on a canvas that keeps a height between 307 and 1004, with
    random numbers in [0, 1), every pipe that is ever in the array has its
    gap inside the playfield: the upper rectangle that [drawPipe] fills
    is at least 48 high and the lower one, from the gap down to the ground
    band, has a height that is not negative. *)
Theorem pipes_fit_the_playfield (cw h best0 : Z) (t0 : Qc) (s : Game) :
  (307 <= h <= 1004)%Z ->
  reachable fair (initial cw h best0 t0) s ->
  forall p, In p (pipes s) ->
    qz 48 <= topRectHeight p /\ 0 <= bottomRectHeight s p.
Proof.
  intros H R.
  assert (O : orderly s).
  { apply (reachable_orderly cw h best0 t0).
    apply (reachable_weaken fair any_event); [intros; exact I|exact R]. }
  assert (B : height s = h /\ clientHeight s = h
              /\ Forall (gap_in_bounds s) (pipes s)).
  { induction R as [|s e R IH Fa].
    - cbn. repeat split; trivial.
    - apply handle_keeps_bounds; trivial. apply IH.
      apply (reachable_orderly cw h best0 t0).
      apply (reachable_weaken fair any_event); [intros; exact I|exact R]. }
  destruct B as (_ & _ & F). destruct O as (_ & _ & _ & G & _).
  intros p Hin. rewrite Forall_forall in F, G.
  destruct (F p Hin) as [T Bo]. destruct (G p Hin) as (Eb & _).
  unfold topRectHeight, bottomRectHeight. split; [exact T|].
  rewrite Eb. revert Bo. generalize (groundHeight s). intros gh Bo.
  unfold PIPE_GAP in *. qc2q. lra.
Qed.

Lemma hovering_fair : reachable fair (initial 320 480 0 0) hovering.
Proof.
  apply (reachable_run fair fairb _ _ fairb_fair); [apply reach_start|].
  vm_compute. reflexivity.
Defined.

Lemma pipes_fit_the_playfield_witness :
  reachable fair (initial 320 480 0 0) hovering /\
  pipes hovering <> [] /\
  forall p, In p (pipes hovering) ->
    qz 48 <= topRectHeight p /\ 0 <= bottomRectHeight hovering p.
Proof.
  split; [exact hovering_fair|]. split; [vm_compute; discriminate|].
  apply (pipes_fit_the_playfield 320 480 0 0 hovering); [lia|].
  exact hovering_fair.
Defined.
